(** * Alert dispatch, circuit breaking and error normalisation

    A shallow embedding of the alert manager of the agentic-workflow
    server (the [AlertManager] class: rate limiter, bounded history,
    channel resolution and fan-out), together with models of the
    error-handling components that sit in front of it (normaliser,
    failure registry, circuit breakers, the [ErrorHandler] facade).

    Conventions.
    - A JavaScript number that holds a time in milliseconds, a count or a
      limit is a [Z] (numbers that are not integral are left out); a
      [Map] is a [gmap]; an array is a [list].
    - An optional field ([context?], [channels?], ...) is an [option].
    - A method that mutates [this] takes the manager and returns the new
      one; what it logs and which adapters it enters is returned as a
      list of [Event]s.
    - What the runtime supplies to one call ([new Date()], [Date.now()],
      whether the body of an adapter throws) is an explicit argument.
    - The synchronous part of [send] (time stamp, rate limiter, history,
      the start of every adapter) runs without interruption, so a call
      is one step on the manager. *)

From Stdlib Require Import ZArith List Ascii String Lia.
From stdpp Require Import base gmap strings list fin_maps.

Local Open Scope string_scope.
Local Open Scope list_scope.
Local Open Scope Z_scope.

(** ** Values of the run time *)

(** The values a channel configuration ([Record<string, any>]) holds. *)
Inductive JsValue : Type :=
| JsUndefined
| JsString (s : string)
| JsNumber (n : Z)
| JsNaN
| JsBoolean (b : bool)
| JsArray (items : list string).

(** How a call ends: it returns, or it throws (an async call: its promise
    is fulfilled, or rejected). *)
Inductive Outcome : Type :=
| Returns
| Throws (error : string).

(** [process.env]: names to strings; an unset variable is [undefined]. *)
Abbreviation ProcessEnv := (gmap string string).

(** Truthiness of [process.env.X]: set, and not the empty string. *)
Definition truthy (v : option string) : bool :=
  match v with
  | Some s => negb (String.eqb s "")
  | None => false
  end.

(** [v || d] on an optional string. *)
Definition or_else (v : option string) (d : string) : string :=
  match v with
  | Some s => if String.eqb s "" then d else s
  | None => d
  end.

(** [v] as a configuration value ([undefined] when unset). *)
Definition js_of_env (v : option string) : JsValue :=
  match v with
  | Some s => JsString s
  | None => JsUndefined
  end.

(** [s.split(',')]. *)
Fixpoint split_on (sep : Ascii.ascii) (s : string) : list string :=
  match s with
  | EmptyString => [EmptyString]
  | String c rest =>
      if Ascii.eqb c sep then EmptyString :: split_on sep rest
      else match split_on sep rest with
           | piece :: pieces => String c piece :: pieces
           | [] => [String c EmptyString]
           end
  end.

(** [arr.slice(0, end)] for an integral [end]: a negative [end] counts
    from the end of the array. *)
Definition slice0 {A : Type} (arr : list A) (end_ : Z) : list A :=
  let len := Z.of_nat (length arr) in
  let final := if end_ <? 0 then Z.max (len + end_) 0 else Z.min end_ len in
  take (Z.to_nat final) arr.

(** ** Alerts *)

(** [enum AlertSeverity]: a string enum; at run time a severity is the
    string itself, and the [default] branches below are reachable. *)
Definition AlertSeverity : Type := string.

Module AlertSeverity.
Definition INFO : AlertSeverity := "info".
Definition WARNING : AlertSeverity := "warning".
Definition HIGH : AlertSeverity := "high".
Definition CRITICAL : AlertSeverity := "critical".
End AlertSeverity.

(** [enum AlertChannel]. *)
Inductive AlertChannel : Type :=
| SLACK
| EMAIL
| PAGERDUTY
| WEBHOOK
| CONSOLE.

#[global] Instance AlertChannel_eq_dec : EqDecision AlertChannel.
Proof. solve_decision. Defined.

Definition AlertChannel_to_nat (c : AlertChannel) : nat :=
  match c with
  | SLACK => 0 | EMAIL => 1 | PAGERDUTY => 2 | WEBHOOK => 3 | CONSOLE => 4
  end.

Definition AlertChannel_of_nat (n : nat) : option AlertChannel :=
  match n with
  | 0%nat => Some SLACK | 1%nat => Some EMAIL | 2%nat => Some PAGERDUTY
  | 3%nat => Some WEBHOOK | 4%nat => Some CONSOLE | _ => None
  end.

#[global] Program Instance AlertChannel_countable : Countable AlertChannel :=
  inj_countable AlertChannel_to_nat AlertChannel_of_nat _.
Next Obligation. by intros []. Qed.

(** The string an enum member stands for. *)
Definition AlertChannel_to_string (c : AlertChannel) : string :=
  match c with
  | SLACK => "slack"
  | EMAIL => "email"
  | PAGERDUTY => "pagerduty"
  | WEBHOOK => "webhook"
  | CONSOLE => "console"
  end.

(** [interface Alert]. *)
Module Alert.

Record t : Type := mk {
  severity : AlertSeverity;
  title : string;
  message : string;
  context : option (list (string * JsValue));
  channels : option (list AlertChannel);
  tags : option (list string);
  timestamp : option Z
}.

(** [alert.timestamp = alert.timestamp || new Date()]: a [Date] object
    is always truthy, so a present time stamp is kept. *)
Definition stamp (alert : t) (new_Date : Z) : t :=
  {| severity := severity alert;
     title := title alert;
     message := message alert;
     context := context alert;
     channels := channels alert;
     tags := tags alert;
     timestamp := Some (default new_Date (timestamp alert)) |}.

End Alert.

(** [interface ChannelConfig]. *)
Record ChannelConfig : Type := {
  enabled : bool;
  config : list (string * JsValue)
}.

(** What a call leaves behind outside the manager. *)
Inductive LogLevel : Type := Debug | Info | Warn | Error.

Inductive Event : Type :=
| Log (level : LogLevel) (text : string)
| Adapter (channel : AlertChannel) (alert : Alert.t)
          (config : list (string * JsValue))
| Metric (name : string) (tags : list (string * string))
| Hook (name : string).

(** A piece of code as it completes: how it ends, and the events it
    leaves, in order. *)
Abbreviation Completion := (Outcome * list Event)%type.

(** [logger.debug], [logger.info], [logger.warn], [logger.error]; the
    logger is taken not to throw. *)
Definition log (level : LogLevel) (text : string) : Completion :=
  (Returns, [Log level text]).

(** [first; next]: what follows a statement that throws is not run. *)
Definition and_then (first next : Completion) : Completion :=
  match first with
  | (Returns, es) => (fst next, es ++ snd next)
  | (Throws error, es) => (Throws error, es)
  end.

(** [try { body } catch (error) { handler }]. *)
Definition try_catch (body : Completion) (handler : string → Completion)
  : Completion :=
  match body with
  | (Returns, es) => (Returns, es)
  | (Throws error, es) => (fst (handler error), es ++ snd (handler error))
  end.

(** What a call of a method gives back: how it ends, the receiver after
    the call, and the events in the order they happen. *)
Record Result (S : Type) : Type := {
  outcome : Outcome;
  after : S;
  events : list Event
}.

Arguments outcome {S} _.
Arguments after {S} _.
Arguments events {S} _.

(** What the runtime supplies to one call of [send]: the value of
    [new Date()], of the first and of the second [Date.now()] the call
    evaluates, and how the adapter of the [i]-th dispatched channel ends. *)
Record Ambient : Type := {
  new_Date : Z;
  Date_now : Z;
  Date_now' : Z;
  adapter : nat → Outcome
}.

(** ** Wire formats *)

(** [config.name] on a configuration object: the value of the property,
    [undefined] when it has none. *)
Fixpoint prop (config : list (string * JsValue)) (name : string) : JsValue :=
  match config with
  | [] => JsUndefined
  | (k, v) :: config => if String.eqb k name then v else prop config name
  end.

(** [typeof value === 'object'] on the values of a context. *)
Definition typeof_object (value : JsValue) : bool :=
  match value with
  | JsArray _ => true
  | _ => false
  end.

(** The message [sendToSlack] posts to the webhook. *)
Module Slack.

Record Field : Type := {
  title : string;
  value : option string;
  short : bool
}.

Record Attachment : Type := {
  color : string;
  attachment_title : string;
  text : string;
  fields : list Field;
  footer : string;
  ts : Z
}.

Record Payload : Type := {
  channel : JsValue;
  username : JsValue;
  attachments : list Attachment
}.

End Slack.

(** Whether a string holds no colon. *)
Fixpoint colon_free (s : string) : bool :=
  match s with
  | EmptyString => true
  | String c rest => negb (Ascii.eqb c ":") && colon_free rest
  end.

(** The events that are an adapter entered, and those that are the error
    log of a [catch]. *)
Definition isAdapterCall (e : Event) : bool :=
  match e with
  | Adapter _ _ _ => true
  | _ => false
  end.

Definition isErrorLog (e : Event) : bool :=
  match e with
  | Log Error _ => true
  | _ => false
  end.

(** ** The alert manager *)

Module AlertManager.

(** [class AlertManager]: its mutable fields. [maxHistorySize] and
    [rateLimitWindow] are initialised once and never assigned again. *)
Record t : Type := mk {
  channels : gmap AlertChannel ChannelConfig;
  alertHistory : list Alert.t;
  rateLimiter : gmap string Z
}.

Definition maxHistorySize : nat := 100.
Definition rateLimitWindow : Z := 300000.

Definition set_channels (m : t) (cs : gmap AlertChannel ChannelConfig) : t :=
  {| channels := cs; alertHistory := alertHistory m;
     rateLimiter := rateLimiter m |}.

Definition set_alertHistory (m : t) (h : list Alert.t) : t :=
  {| channels := channels m; alertHistory := h;
     rateLimiter := rateLimiter m |}.

Definition set_rateLimiter (m : t) (r : gmap string Z) : t :=
  {| channels := channels m; alertHistory := alertHistory m;
     rateLimiter := r |}.

Section Construction.

(** The built-in [parseInt], whose result is a double. *)
Variable parseInt : string → JsValue.

(** [initializeChannels()]. *)
Definition initializeChannels (env : ProcessEnv) (m : t) : t :=
  (* Slack *)
  let m :=
    if truthy (env !! "SLACK_WEBHOOK_URL") then
      set_channels m (<[SLACK := {|
        enabled := true;
        config := [
          ("webhookUrl", js_of_env (env !! "SLACK_WEBHOOK_URL"));
          ("channel", JsString (or_else (env !! "SLACK_CHANNEL") "#alerts"));
          ("username",
            JsString (or_else (env !! "SLACK_USERNAME") "Alert Bot"))
        ] |}]> (channels m))
    else m in
  (* Email *)
  let m :=
    if truthy (env !! "SMTP_HOST") then
      set_channels m (<[EMAIL := {|
        enabled := true;
        config := [
          ("host", js_of_env (env !! "SMTP_HOST"));
          ("port", parseInt (or_else (env !! "SMTP_PORT") "587"));
          ("secure",
            JsBoolean (bool_decide (env !! "SMTP_SECURE" = Some "true")));
          ("from", js_of_env (env !! "EMAIL_FROM"));
          ("to", JsArray match env !! "ALERT_EMAIL_TO" with
                         | Some s => split_on (","%char : Ascii.ascii) s
                         | None => []
                         end)
        ] |}]> (channels m))
    else m in
  (* PagerDuty *)
  let m :=
    if truthy (env !! "PAGERDUTY_INTEGRATION_KEY") then
      set_channels m (<[PAGERDUTY := {|
        enabled := true;
        config := [
          ("integrationKey", js_of_env (env !! "PAGERDUTY_INTEGRATION_KEY"))
        ] |}]> (channels m))
    else m in
  (* Console (always enabled in development) *)
  set_channels m (<[CONSOLE := {|
    enabled := bool_decide (env !! "NODE_ENV" = Some "development");
    config := [] |}]> (channels m)).

(** [new AlertManager()]: the field initialisers, then the constructor. *)
Definition new (env : ProcessEnv) : t :=
  initializeChannels env
    {| channels := ∅; alertHistory := []; rateLimiter := ∅ |}.

End Construction.

(** The rate limiter's key: [`${alert.title}:${alert.severity}`]. *)
Definition key (alert : Alert.t) : string :=
  Alert.title alert +:+ ":" +:+ Alert.severity alert.

(** [isRateLimited(alert)]. [now] is the first [Date.now()] the call
    evaluates and [now'] the second; [!lastSent] holds for a missing entry
    and for the number 0. *)
Definition isRateLimited (m : t) (alert : Alert.t) (now now' : Z)
  : bool * t :=
  let key := key alert in
  match rateLimiter m !! key with
  | None => (false, set_rateLimiter m (<[key := now]> (rateLimiter m)))
  | Some lastSent =>
      if lastSent =? 0 then
        (false, set_rateLimiter m (<[key := now]> (rateLimiter m)))
      else
        let timeSinceLastSent := now - lastSent in
        if timeSinceLastSent <? rateLimitWindow then (true, m)
        else (false, set_rateLimiter m (<[key := now']> (rateLimiter m)))
  end.

(** [addToHistory(alert)]: [unshift], then [pop] past the capacity. *)
Definition addToHistory (m : t) (alert : Alert.t) : t :=
  let history := alert :: alertHistory m in
  set_alertHistory m
    (if (maxHistorySize <? length history)%nat then removelast history
     else history).

(** [getDefaultChannels(severity)]. *)
Definition getDefaultChannels (severity : AlertSeverity) : list AlertChannel :=
  if String.eqb severity AlertSeverity.CRITICAL then [SLACK; PAGERDUTY; EMAIL]
  else if String.eqb severity AlertSeverity.HIGH then [SLACK; EMAIL]
  else if String.eqb severity AlertSeverity.WARNING then [SLACK]
  else [CONSOLE].

(** The channel adapters. Each is entered with the alert (and, but for
    the console, the channel's configuration) and maps it to its wire
    format; [io] is how the body of the adapter ends: an [axios.post]
    that is rejected, a [JSON.stringify] that throws, or a normal
    return. *)
Definition sendToSlack (alert : Alert.t) (config : list (string * JsValue))
    (io : Outcome) : Completion :=
  (io, [Adapter SLACK alert config]).

Definition sendToEmail (alert : Alert.t) (config : list (string * JsValue))
    (io : Outcome) : Completion :=
  (io, [Adapter EMAIL alert config]).

Definition sendToPagerDuty (alert : Alert.t)
    (config : list (string * JsValue)) (io : Outcome) : Completion :=
  (io, [Adapter PAGERDUTY alert config]).

Definition sendToConsole (alert : Alert.t) (io : Outcome) : Completion :=
  (io, [Adapter CONSOLE alert []]).

Definition sendToWebhook (alert : Alert.t)
    (config : list (string * JsValue)) (io : Outcome) : Completion :=
  (io, [Adapter WEBHOOK alert config]).

(** [sendToChannel(alert, channel)]; [io] is how the adapter it calls
    ends. *)
Definition sendToChannel (m : t) (alert : Alert.t) (channel : AlertChannel)
    (io : Outcome) : Completion :=
  match channels m !! channel with
  | Some channelConfig =>
      if negb (enabled channelConfig) then
        log Debug ("Channel " +:+ AlertChannel_to_string channel +:+
                   " not enabled, skipping")
      else
        try_catch
          match channel with
          | SLACK => sendToSlack alert (config channelConfig) io
          | EMAIL => sendToEmail alert (config channelConfig) io
          | PAGERDUTY => sendToPagerDuty alert (config channelConfig) io
          | CONSOLE => sendToConsole alert io
          | WEBHOOK => sendToWebhook alert (config channelConfig) io
          end
          (λ error,
             log Error ("Failed to send alert to " +:+
                        AlertChannel_to_string channel))
  | None =>
      log Debug ("Channel " +:+ AlertChannel_to_string channel +:+
                 " not enabled, skipping")
  end.

(** The configuration an adapter is entered with: the console adapter
    takes none. *)
Definition adapterConfig (channel : AlertChannel) (cfg : ChannelConfig)
  : list (string * JsValue) :=
  match channel with
  | CONSOLE => []
  | _ => config cfg
  end.

(** [await Promise.allSettled(promises)]: the promise is fulfilled once
    every promise of the list is settled, whatever their outcomes. *)
Definition Promise_allSettled (promises : list Outcome) : Completion :=
  (Returns, []).

(** The channels an alert goes to: [alert.channels ||
    this.getDefaultChannels(alert.severity)]; an array, even an empty one,
    is truthy. *)
Definition resolveChannels (alert : Alert.t) : list AlertChannel :=
  match Alert.channels alert with
  | Some channels => channels
  | None => getDefaultChannels (Alert.severity alert)
  end.

(** [channels.map(channel => this.sendToChannel(alert, channel))]: the
    promise of each channel, with the events of its call. *)
Definition fanOut (m : t) (alert : Alert.t) (channels : list AlertChannel)
    (w : Ambient) : list Completion :=
  imap (λ i channel, sendToChannel m alert channel (adapter w i)) channels.

(** Whether [send] finds the alert rate limited. *)
Definition suppressed (m : t) (alert : Alert.t) (w : Ambient) : bool :=
  fst (isRateLimited m (Alert.stamp alert (new_Date w))
         (Date_now w) (Date_now' w)).

(** [send(alert)]. The events of the channels are listed in the order of
    the channel list; the run time may interleave what the adapters do
    after their first [await]. *)
Definition send (m : t) (alert : Alert.t) (w : Ambient) : Result t :=
  (* Add timestamp *)
  let alert := Alert.stamp alert (new_Date w) in
  (* Check rate limiting *)
  let '(limited, m) := isRateLimited m alert (Date_now w) (Date_now' w) in
  if limited then
    {| outcome := Returns; after := m;
       events := [Log Warn "Alert rate limited"] |}
  else
    (* Record in history *)
    let m := addToHistory m alert in
    (* Determine channels to use *)
    let channels := resolveChannels alert in
    (* Send to all channels *)
    let promises := fanOut m alert channels w in
    let sent := concat (snd <$> promises) in
    let joined :=
      try_catch
        (and_then (Promise_allSettled (fst <$> promises))
                  (log Info "Alert sent"))
        (λ error, log Error "Failed to send alert") in
    {| outcome := fst joined; after := m; events := sent ++ snd joined |}.

(** [send] once per call of the list, in order. *)
Definition sends (m : t) (calls : list (Alert.t * Ambient)) : t :=
  fold_left (λ m call, after (send m call.1 call.2)) calls m.

(** The alerts a run of [send] calls records, the first recorded first:
    the stamped alert of every call that is not suppressed. *)
Fixpoint recorded (m : t) (calls : list (Alert.t * Ambient))
  : list Alert.t :=
  match calls with
  | [] => []
  | (alert, w) :: calls =>
      if suppressed m alert w then recorded (after (send m alert w)) calls
      else Alert.stamp alert (new_Date w)
           :: recorded (after (send m alert w)) calls
  end.

(** [getHistory(limit = 10)]. *)
Definition getHistory (m : t) (limit : option Z) : list Alert.t :=
  slice0 (alertHistory m) (default 10 limit).

(** [clearHistory()]. *)
Definition clearHistory (m : t) : t :=
  {| channels := channels m; alertHistory := []; rateLimiter := ∅ |}.

(** [configureChannel(channel, config)]. *)
Definition configureChannel (m : t) (channel : AlertChannel)
    (config : ChannelConfig) : t :=
  set_channels m (<[channel := config]> (channels m)).

(** Whether [sendToChannel] finds the channel configured and enabled. *)
Definition channelEnabled (m : t) (channel : AlertChannel) : bool :=
  match channels m !! channel with
  | Some channelConfig => enabled channelConfig
  | None => false
  end.

(** [getSeverityColor(severity)]. *)
Definition getSeverityColor (severity : AlertSeverity) : string :=
  if String.eqb severity AlertSeverity.CRITICAL then "#dc3545"
  else if String.eqb severity AlertSeverity.HIGH then "#fd7e14"
  else if String.eqb severity AlertSeverity.WARNING then "#ffc107"
  else "#17a2b8".

Section Payloads.

(** The built-ins the payloads are made with: [s.toUpperCase()],
    [date.toISOString()], [JSON.stringify(value)] and [String(value)]. *)
Variable toUpperCase : string → string.
Variable toISOString : Z → string.
Variable JSON_stringify : JsValue → string.
Variable String_of : JsValue → string.

(** The fields [sendToSlack] makes of the context: the first five
    entries, in the order of [Object.entries]. *)
Definition contextFields (context : list (string * JsValue))
  : list Slack.Field :=
  (λ entry,
     {| Slack.title := entry.1;
        Slack.value :=
          Some (if typeof_object entry.2 then JSON_stringify entry.2
                else String_of entry.2);
        Slack.short := true |})
  <$> take 5 context.

(** The payload of [sendToSlack(alert, config)]; [now] is [Date.now()].
    [getTime() || Date.now()] takes the clock for a time stamp of 0. *)
Definition slackPayload (alert : Alert.t) (config : list (string * JsValue))
    (now : Z) : Slack.Payload :=
  let color := getSeverityColor (Alert.severity alert) in
  let time :=
    match Alert.timestamp alert with
    | Some t => if t =? 0 then now else t
    | None => now
    end in
  {| Slack.channel := prop config "channel";
     Slack.username := prop config "username";
     Slack.attachments := [
       {| Slack.color := color;
          Slack.attachment_title := Alert.title alert;
          Slack.text := Alert.message alert;
          Slack.fields :=
            [ {| Slack.title := "Severity";
                 Slack.value := Some (toUpperCase (Alert.severity alert));
                 Slack.short := true |};
              {| Slack.title := "Time";
                 Slack.value := toISOString <$> Alert.timestamp alert;
                 Slack.short := true |} ]
            ++ match Alert.context alert with
               | Some context => contextFields context
               | None => []
               end;
          Slack.footer := "Agentic Workflow";
          Slack.ts := time / 1000 |} ] |}.

End Payloads.

(** What the rest of the process does to the shared manager. *)
Inductive Op : Type :=
| OpSend (alert : Alert.t) (w : Ambient)
| OpClearHistory
| OpConfigureChannel (channel : AlertChannel) (config : ChannelConfig).

Definition step (m : t) (op : Op) : t :=
  match op with
  | OpSend alert w => after (send m alert w)
  | OpClearHistory => clearHistory m
  | OpConfigureChannel channel config => configureChannel m channel config
  end.

(** The managers a process can be in: the constructed one, after any
    operations. *)
Definition reachable (parseInt : string → JsValue) (m : t) : Prop :=
  ∃ (env : ProcessEnv) (ops : list Op),
    m = fold_left step ops (new parseInt env).

(** A rate limiter entry stands for a recorded alert: as long as the
    history is empty, so is the rate limiter. *)
Definition settled (m : t) : Prop :=
  alertHistory m = [] → rateLimiter m = ∅.

End AlertManager.

(** ** The error taxonomy *)

Module ErrorSeverity.

Inductive t : Type := LOW | MEDIUM | HIGH | CRITICAL.

#[global] Instance eq_dec : EqDecision t.
Proof. solve_decision. Defined.

End ErrorSeverity.

Module ErrorCategory.

Inductive t : Type :=
| VALIDATION
| AUTHENTICATION
| AUTHORIZATION
| NETWORK
| DATABASE
| BUSINESS_LOGIC
| SYSTEM
| EXTERNAL_SERVICE
| CONFIGURATION.

Definition to_string (c : t) : string :=
  match c with
  | VALIDATION => "validation"
  | AUTHENTICATION => "authentication"
  | AUTHORIZATION => "authorization"
  | NETWORK => "network"
  | DATABASE => "database"
  | BUSINESS_LOGIC => "business_logic"
  | SYSTEM => "system"
  | EXTERNAL_SERVICE => "external_service"
  | CONFIGURATION => "configuration"
  end.

End ErrorCategory.

Inductive RecoveryStrategy : Type :=
| RETRY
| FALLBACK
| CIRCUIT_BREAK
| COMPENSATE
| ESCALATE
| IGNORE.

(** Modelled from the spec: the canonical error record of the error
    handler module, which is not among the sources. The fields are those
    of the data model: identity, creation time, severity, category, code,
    context, the [recoverable] flag, the declared recovery strategy, the
    remediation hint, the cause, and the ambient correlation fields. The
    record is parametrised by the type of its cause, a failure value. *)
Record CanonicalErrorOf (F : Type) : Type := {
  id : nat;
  created : Z;
  severity : ErrorSeverity.t;
  category : ErrorCategory.t;
  code : string;
  message : string;
  context : list (string * JsValue);
  recoverable : bool;
  recovery : option RecoveryStrategy;
  hint : option string;
  cause : option F;
  correlationId : option string;
  userId : option string;
  sessionId : option string;
  traceId : option string
}.

Arguments id {F} _.
Arguments created {F} _.
Arguments severity {F} _.
Arguments category {F} _.
Arguments code {F} _.
Arguments message {F} _.
Arguments context {F} _.
Arguments recoverable {F} _.
Arguments recovery {F} _.
Arguments hint {F} _.
Arguments cause {F} _.
Arguments correlationId {F} _.
Arguments userId {F} _.
Arguments sessionId {F} _.
Arguments traceId {F} _.

(** Modelled from the spec: a failure value as the normaliser sees it. It
    is a canonical error already, or a foreign error with a message and
    maybe a stack, or a value whose inspection faults inside the
    normaliser. *)
#[local] Set Warnings "-register-all".

Inductive Failure : Type :=
| Canonical (error : CanonicalErrorOf Failure)
| Foreign (message : string) (stack : option string)
| Unreadable.

Abbreviation CanonicalError := (CanonicalErrorOf Failure).

(** The registries' key of an error: [category:code]. *)
Definition error_key (error : CanonicalError) : string :=
  ErrorCategory.to_string (category error) +:+ ":" +:+ code error.

(** What the ambient context provider supplies when a record is created. *)
Record AmbientContext : Type := {
  ctx_correlationId : option string;
  ctx_userId : option string;
  ctx_sessionId : option string;
  ctx_traceId : option string
}.

(** ** The normaliser *)

Module ErrorNormalizer.

(** Modelled from the spec: the synthesised record of a failure that is
    not canonical: severity medium, category system, code UNKNOWN_ERROR,
    not recoverable, the original message and stack as context. *)
Definition synthesize (id : nat) (now : Z) (ctx : AmbientContext)
    (msg : string) (stack : option string) : CanonicalError :=
  {| id := id;
     created := now;
     severity := ErrorSeverity.MEDIUM;
     category := ErrorCategory.SYSTEM;
     code := "UNKNOWN_ERROR";
     message := msg;
     context := [("originalMessage", JsString msg);
                 ("stack", match stack with
                           | Some s => JsString s
                           | None => JsUndefined
                           end)];
     recoverable := false;
     recovery := None;
     hint := None;
     cause := None;
     correlationId := ctx_correlationId ctx;
     userId := ctx_userId ctx;
     sessionId := ctx_sessionId ctx;
     traceId := ctx_traceId ctx |}.

(** Modelled from the spec: the minimal record an internal fault falls
    back to; the spec fixes its category, system. *)
Definition minimal (id : nat) (now : Z) : CanonicalError :=
  {| id := id;
     created := now;
     severity := ErrorSeverity.MEDIUM;
     category := ErrorCategory.SYSTEM;
     code := "UNKNOWN_ERROR";
     message := "";
     context := [];
     recoverable := false;
     recovery := None;
     hint := None;
     cause := None;
     correlationId := None;
     userId := None;
     sessionId := None;
     traceId := None |}.

(** Modelled from the spec: the normaliser of the error handler module,
    which is not among the sources. [nextId] is the allocator of record
    identities; the result is the canonical record and the allocator
    after the call. A canonical input is returned as it is and allocates
    nothing. *)
Definition normalize (failure : Failure) (nextId : nat) (now : Z)
    (ctx : AmbientContext) : CanonicalError * nat :=
  match failure with
  | Canonical error => (error, nextId)
  | Foreign msg stack => (synthesize nextId now ctx msg stack, S nextId)
  | Unreadable => (minimal nextId now, S nextId)
  end.

End ErrorNormalizer.

(** ** The failure registry *)

Module FailureRegistry.

(** Modelled from the spec: the occurrence counter per [category:code]
    key of the error handler module, which is not among the sources.
    [recordOccurrence] increments the key's count and returns the new
    total; nothing is ever evicted. *)
Definition recordOccurrence (counts : gmap string nat) (key : string)
  : nat * gmap string nat :=
  let count := S (default 0%nat (counts !! key)) in
  (count, <[key := count]> counts).

End FailureRegistry.

(** ** Circuit breakers *)

Module CircuitBreaker.

Inductive State : Type := closed | open | half_open.

#[global] Instance State_eq_dec : EqDecision State.
Proof. solve_decision. Defined.

(** Modelled from the spec: one circuit breaker of the error handler
    module, which is not among the sources: its state, failure counter,
    last-failure time stamp, failure threshold and open-duration. *)
Record t : Type := {
  state : State;
  failures : nat;
  lastFailureTime : option Z;
  threshold : nat;
  timeout : Z
}.

(** A breaker as it is created: closed, no failure counted. *)
Definition create (threshold : nat) (timeout : Z) : t :=
  {| state := closed; failures := 0; lastFailureTime := None;
     threshold := threshold; timeout := timeout |}.

Definition set_state (b : t) (s : State) : t :=
  {| state := s; failures := failures b;
     lastFailureTime := lastFailureTime b;
     threshold := threshold b; timeout := timeout b |}.

Section Transitions.

(** The spec leaves a failure recorded while half-open undecided; the
    transition is a parameter of the model. *)
Variable halfOpenFailure : t → Z → t.

(** Modelled from the spec: [recordFailure()]. Closed: the counter is
    incremented, and once it has reached the threshold the breaker opens,
    a state change is observed and the transition to half-open is
    scheduled for when the time-out has elapsed (the third component).
    Open: nothing changes. *)
Definition recordFailure (b : t) (now : Z) : t * list Event * option Z :=
  match state b with
  | closed =>
      let counted :=
        {| state := closed; failures := S (failures b);
           lastFailureTime := Some now;
           threshold := threshold b; timeout := timeout b |} in
      if (threshold b <=? failures counted)%nat then
        (set_state counted open,
         [Metric "circuit_breaker.state_change"
                 [("from", "closed"); ("to", "open")]],
         Some (now + timeout b))
      else (counted, [], None)
  | open => (b, [], None)
  | half_open => (halfOpenFailure b now, [], None)
  end.

End Transitions.

(** Modelled from the spec: [recordSuccess()]. Half-open: the breaker
    closes and its counter is reset. *)
Definition recordSuccess (b : t) : t :=
  match state b with
  | half_open =>
      {| state := closed; failures := 0;
         lastFailureTime := lastFailureTime b;
         threshold := threshold b; timeout := timeout b |}
  | _ => b
  end.

(** The deferred transition, when its timer fires: open to half-open. *)
Definition halfOpen (b : t) : t :=
  match state b with
  | open => set_state b half_open
  | _ => b
  end.

End CircuitBreaker.

Module CircuitBreakerRegistry.

(** Modelled from the spec: the breakers per [category:code] key, the
    timers of the scheduled transitions (key and due time), and the
    configuration a breaker is created with. *)
Record t : Type := {
  breakers : gmap string CircuitBreaker.t;
  timers : list (string * Z);
  failureThreshold : nat;
  openTimeout : Z
}.

(** The registry at process start, with the default configuration. *)
Definition new : t :=
  {| breakers := ∅; timers := []; failureThreshold := 5;
     openTimeout := 60000 |}.

(** The breaker of a key, created on first use. *)
Definition breaker (r : t) (key : string) : CircuitBreaker.t :=
  default (CircuitBreaker.create (failureThreshold r) (openTimeout r))
          (breakers r !! key).

Section Transitions.

Variable halfOpenFailure : CircuitBreaker.t → Z → CircuitBreaker.t.

(** Modelled from the spec: [recordFailure(key)]. *)
Definition recordFailure (r : t) (key : string) (now : Z)
  : t * list Event :=
  let '(b, events, timer) :=
    CircuitBreaker.recordFailure halfOpenFailure (breaker r key) now in
  ({| breakers := <[key := b]> (breakers r);
      timers := match timer with
                | Some due => timers r ++ [(key, due)]
                | None => timers r
                end;
      failureThreshold := failureThreshold r;
      openTimeout := openTimeout r |},
   events).

(** [recordFailure(key)] once per time of the list, in order. *)
Definition recordFailures (r : t) (key : string) (times : list Z) : t :=
  fold_left (λ r now, fst (recordFailure r key now)) times r.

End Transitions.

(** Modelled from the spec: [recordSuccess(key)]. *)
Definition recordSuccess (r : t) (key : string) : t :=
  match breakers r !! key with
  | Some b =>
      {| breakers := <[key := CircuitBreaker.recordSuccess b]> (breakers r);
         timers := timers r;
         failureThreshold := failureThreshold r;
         openTimeout := openTimeout r |}
  | None => r
  end.

(** Modelled from the spec: [getState(key)] and [isOpen(key)]. *)
Definition getState (r : t) (key : string) : CircuitBreaker.State :=
  CircuitBreaker.state (breaker r key).

Definition isOpen (r : t) (key : string) : bool :=
  bool_decide (getState r key = CircuitBreaker.open).

(** The timers that are due at [now] fire, in the order they were set. *)
Definition elapse (r : t) (now : Z) : t :=
  let due := filter (λ timer, snd timer ≤ now) (timers r) in
  {| breakers :=
       fold_left (λ bs timer, alter CircuitBreaker.halfOpen (fst timer) bs)
                 due (breakers r);
     timers := filter (λ timer, ¬ snd timer ≤ now) (timers r);
     failureThreshold := failureThreshold r;
     openTimeout := openTimeout r |}.

End CircuitBreakerRegistry.

(** ** Recovery and the facade *)

(** [alert] with its severity replaced. *)
Definition with_severity (severity : AlertSeverity) (alert : Alert.t)
  : Alert.t :=
  {| Alert.severity := severity;
     Alert.title := Alert.title alert;
     Alert.message := Alert.message alert;
     Alert.context := Alert.context alert;
     Alert.channels := Alert.channels alert;
     Alert.tags := Alert.tags alert;
     Alert.timestamp := Alert.timestamp alert |}.

(** What the runtime supplies to one call of [handle]: the clock and the
    ambient context at normalisation, how the recovery hook ends, and
    what it supplies to the [send] of the alert gate and to the [send] of
    an escalation. *)
Record HandleAmbient : Type := {
  h_now : Z;
  h_context : AmbientContext;
  h_hook : Outcome;
  h_gate : Ambient;
  h_escalation : Ambient
}.

Module RecoveryOrchestrator.

Section Attempt.

Variable halfOpenFailure : CircuitBreaker.t → Z → CircuitBreaker.t.

(** The text of the alert an escalation sends; the spec fixes its
    severity, high. *)
Variable escalationAlert : CanonicalError → Alert.t.

(** A hook is an extension point; what it throws is recorded and
    swallowed. *)
Definition runHook (name : string) (outcome : Outcome) : list Event :=
  match outcome with
  | Returns => [Hook name; Metric "recovery.success" [("strategy", name)]]
  | Throws error =>
      [Hook name; Metric "recovery.failure" [("strategy", name)];
       Log Error "Recovery failed"]
  end.

(** Modelled from the spec: [attempt(error)] of the error handler module,
    which is not among the sources: the dispatch on the declared
    strategy. *)
Definition attempt (breakers : CircuitBreakerRegistry.t)
    (alerts : AlertManager.t) (error : CanonicalError) (w : HandleAmbient)
  : CircuitBreakerRegistry.t * AlertManager.t * list Event :=
  match recovery error with
  | Some RETRY => (breakers, alerts, runHook "retry" (h_hook w))
  | Some FALLBACK => (breakers, alerts, runHook "fallback" (h_hook w))
  | Some CIRCUIT_BREAK =>
      let '(breakers, events) :=
        CircuitBreakerRegistry.recordFailure halfOpenFailure breakers
          (error_key error) (h_now w) in
      (breakers, alerts, events)
  | Some COMPENSATE => (breakers, alerts, runHook "compensate" (h_hook w))
  | Some ESCALATE =>
      let sent :=
        AlertManager.send alerts
          (with_severity AlertSeverity.HIGH (escalationAlert error))
          (h_escalation w) in
      (breakers, after sent, events sent)
  | Some IGNORE => (breakers, alerts, [Log Info "Error ignored"])
  | None => (breakers, alerts, [])
  end.

End Attempt.

End RecoveryOrchestrator.

Module ErrorHandler.

(** Modelled from the spec: the state behind the facade: the allocator of
    record identities, the failure registry, the circuit breakers and the
    alert manager. *)
Record t : Type := {
  nextId : nat;
  errorCounts : gmap string nat;
  circuitBreakers : CircuitBreakerRegistry.t;
  alertManager : AlertManager.t
}.

Section Handle.

Variable halfOpenFailure : CircuitBreaker.t → Z → CircuitBreaker.t.

(** The texts of the alerts; the spec fixes the severity of the rate
    alert, warning, and of the escalation, high. *)
Variable criticalAlert : CanonicalError → Alert.t.
Variable rateAlert : CanonicalError → nat → Alert.t.
Variable escalationAlert : CanonicalError → Alert.t.

(** Modelled from the spec: the alert gate. A critical error always
    alerts; otherwise a count above 10 sends a warning alert. *)
Definition alertGate (alerts : AlertManager.t) (error : CanonicalError)
    (count : nat) (w : HandleAmbient) : AlertManager.t * list Event :=
  if bool_decide (severity error = ErrorSeverity.CRITICAL) then
    let sent :=
      AlertManager.send alerts (criticalAlert error) (h_gate w) in
    (after sent, events sent)
  else if (10 <? count)%nat then
    let sent :=
      AlertManager.send alerts
        (with_severity AlertSeverity.WARNING (rateAlert error count))
        (h_gate w) in
    (after sent, events sent)
  else (alerts, []).

(** Modelled from the spec: [handle(failure)] of the error handler
    module, which is not among the sources: normalise, record the
    occurrence and observe it, pass the alert gate, and attempt the
    recovery of a recoverable error. *)
Definition handle (h : t) (failure : Failure) (w : HandleAmbient)
  : Result t :=
  let '(error, nextId) :=
    ErrorNormalizer.normalize failure (nextId h) (h_now w) (h_context w) in
  let '(count, counts) :=
    FailureRegistry.recordOccurrence (errorCounts h) (error_key error) in
  let observed :=
    [Metric "errors.total" [("key", error_key error)];
     Log Error (message error)] in
  let '(alerts, alerted) := alertGate (alertManager h) error count w in
  let '(breakers, alerts, recovered) :=
    if recoverable error then
      RecoveryOrchestrator.attempt halfOpenFailure escalationAlert
        (circuitBreakers h) alerts error w
    else (circuitBreakers h, alerts, []) in
  {| outcome := Returns;
     after := {| nextId := nextId; errorCounts := counts;
                 circuitBreakers := breakers; alertManager := alerts |};
     events := observed ++ alerted ++ recovered |}.

End Handle.

End ErrorHandler.

(** ** The logger *)

(** The data a log call is given ([any]): a primitive, an array, or an
    object, which is its own enumerable entries in the order of
    [Object.entries], their keys distinct. Data with a cycle is left
    out. *)
Inductive JsData : Type :=
| DUndefined
| DNull
| DBoolean (b : bool)
| DNumber (n : Z)
| DString (s : string)
| DArray (items : list JsData)
| DObject (entries : list (string * JsData)).

Module Logger.

(** [Logger.sensitiveFields]. *)
Definition sensitiveFields : list string :=
  ["password"; "token"; "apiKey"; "secret"; "creditCard"; "ssn";
   "authorization"].

(** [typeof value === 'object' && value !== null]. *)
Definition isObject (value : JsData) : bool :=
  match value with
  | DArray _ | DObject _ => true
  | _ => false
  end.

Section Sanitize.

(** The built-in [key.toLowerCase()]. *)
Variable toLowerCase : string → string.

(** [Logger.sensitiveFields.has(key.toLowerCase())]. *)
Definition sensitive (key : string) : bool :=
  bool_decide (toLowerCase key ∈ sensitiveFields).

(** [sanitize(data)]. The keys of an array are its indices, which no
    lower-casing turns into a name of the set, so an array only has its
    elements sanitized. *)
Fixpoint sanitize (data : JsData) : JsData :=
  match data with
  | DArray items =>
      DArray
        ((λ value, if isObject value then sanitize value else value)
         <$> items)
  | DObject entries =>
      DObject
        ((λ entry,
            let '(key, value) := entry in
            if sensitive key then (key, DString "[REDACTED]")
            else if isObject value then (key, sanitize value)
            else (key, value))
         <$> entries)
  | _ => data
  end.

(** The entries an object spread copies. *)
Definition spread (data : JsData) : list (string * JsData) :=
  match data with
  | DObject entries => entries
  | _ => []
  end.

(** The object [log(level, message, meta)] hands to winston: the level
    and the message, then the entries of the ambient context, then those
    of the sanitized meta, then the processing time, a later entry of a
    key replacing an earlier one. [store] is [asyncContext.getStore()],
    and [start] and [finish] are the two readings of the clock. *)
Definition logEntry (level message : string)
    (meta store : option (list (string * JsData))) (start finish : Z)
  : gmap string JsData :=
  let sanitizedMeta :=
    match meta with
    | Some entries => spread (sanitize (DObject entries))
    | None => []
    end in
  let currentContext := default [] store in
  <["processingTime" := DNumber (finish - start)]>
    (list_to_map sanitizedMeta
     ∪ (list_to_map currentContext
        ∪ {[ "level" := DString level; "message" := DString message ]})).

End Sanitize.

(** The data in which no value is left under a sensitive key: every
    entry of an object whose key is sensitive holds the mark, at every
    depth. *)
Fixpoint redacted (sensitive : string → bool) (data : JsData) : Prop :=
  match data with
  | DArray items =>
      (fix all (l : list JsData) : Prop :=
         match l with
         | [] => True
         | d :: l => redacted sensitive d ∧ all l
         end) items
  | DObject entries =>
      (fix all (l : list (string * JsData)) : Prop :=
         match l with
         | [] => True
         | (key, d) :: l =>
             (if sensitive key then d = DString "[REDACTED]"
              else redacted sensitive d)
             ∧ all l
         end) entries
  | _ => True
  end.

(** The keys of the data, at every depth. *)
Fixpoint keys (data : JsData) : list string :=
  match data with
  | DArray items => concat (keys <$> items)
  | DObject entries =>
      concat ((λ entry, let '(key, d) := entry in key :: keys d)
              <$> entries)
  | _ => []
  end.

End Logger.

(** ** Sample data *)

Module Examples.

Definition parseInt (s : string) : JsValue :=
  if String.eqb s "587" then JsNumber 587 else JsNaN.

Definition production : ProcessEnv := {[ "NODE_ENV" := "production" ]}.
Definition development : ProcessEnv := {[ "NODE_ENV" := "development" ]}.

Definition notice : Alert.t :=
  {| Alert.severity := AlertSeverity.INFO;
     Alert.title := "Disk usage";
     Alert.message := "80% used";
     Alert.context := None;
     Alert.channels := None;
     Alert.tags := None;
     Alert.timestamp := None |}.

(** A call at time [t] whose adapters all return. *)
Definition calm (t : Z) : Ambient :=
  {| new_Date := t; Date_now := t; Date_now' := t;
     adapter := λ _, Returns |}.

(** An environment with a slack webhook, in development. *)
Definition staffed : ProcessEnv :=
  {[ "SLACK_WEBHOOK_URL" := "https://hooks.example/T0";
     "NODE_ENV" := "development" ]}.

Definition outage : Alert.t :=
  {| Alert.severity := AlertSeverity.CRITICAL;
     Alert.title := "Database down";
     Alert.message := "primary unreachable";
     Alert.context := None;
     Alert.channels := Some [SLACK; CONSOLE];
     Alert.tags := None;
     Alert.timestamp := None |}.

(** A call at time [t] during which the first adapter throws. *)
Definition firstThrows (t : Z) : Ambient :=
  {| new_Date := t; Date_now := t; Date_now' := t;
     adapter := λ i, match i with
                     | O => Throws "ECONNREFUSED"
                     | S _ => Returns
                     end |}.

(** A manager with two alerts in its history, the newer first. *)
Definition pair : AlertManager.t :=
  {| AlertManager.channels := ∅;
     AlertManager.alertHistory := [outage; notice];
     AlertManager.rateLimiter := ∅ |}.

(** A manager whose history is full. *)
Definition full : AlertManager.t :=
  {| AlertManager.channels := ∅;
     AlertManager.alertHistory := replicate 100 outage;
     AlertManager.rateLimiter := ∅ |}.

(** An uncaught exception, as the process reports it. *)
Definition uncaught : CanonicalError :=
  {| id := 7;
     created := 900;
     severity := ErrorSeverity.CRITICAL;
     category := ErrorCategory.SYSTEM;
     code := "UNCAUGHT_EXCEPTION";
     message := "Uncaught exception: boom";
     context := [];
     recoverable := false;
     recovery := None;
     hint := None;
     cause := Some (Foreign "boom" None);
     correlationId := None;
     userId := None;
     sessionId := None;
     traceId := None |}.

(** The alert of an error: its code as the title. *)
Definition alertOf (error : CanonicalError) : Alert.t :=
  {| Alert.severity := AlertSeverity.CRITICAL;
     Alert.title := code error;
     Alert.message := message error;
     Alert.context := Some (context error);
     Alert.channels := None;
     Alert.tags := None;
     Alert.timestamp := None |}.

Definition rateOf (error : CanonicalError) (count : nat) : Alert.t :=
  alertOf error.

(** The facade at process start, with 50 occurrences counted for the
    key of [uncaught]. *)
Definition handler : ErrorHandler.t :=
  {| ErrorHandler.nextId := 8;
     ErrorHandler.errorCounts := {[ "system:UNCAUGHT_EXCEPTION" := 50%nat ]};
     ErrorHandler.circuitBreakers := CircuitBreakerRegistry.new;
     ErrorHandler.alertManager := AlertManager.new parseInt production |}.

Definition quiet (t : Z) : HandleAmbient :=
  {| h_now := t;
     h_context := {| ctx_correlationId := None; ctx_userId := None;
                     ctx_sessionId := None; ctx_traceId := None |};
     h_hook := Returns;
     h_gate := calm t;
     h_escalation := calm t |}.

(** A half-open breaker that any failure reopens. *)
Definition reopen (b : CircuitBreaker.t) (now : Z) : CircuitBreaker.t :=
  CircuitBreaker.set_state b CircuitBreaker.open.

(** An alert for the webhook channel only, and a webhook configuration. *)
Definition hooked : Alert.t :=
  {| Alert.severity := AlertSeverity.WARNING;
     Alert.title := "Queue backlog";
     Alert.message := "512 jobs waiting";
     Alert.context := None;
     Alert.channels := Some [WEBHOOK];
     Alert.tags := None;
     Alert.timestamp := None |}.

Definition hook : ChannelConfig :=
  {| enabled := true;
     config := [("url", JsString "https://ops.example/hook")] |}.

(** A critical alert that leaves the channels to the severity. *)
Definition breach : Alert.t :=
  {| Alert.severity := AlertSeverity.CRITICAL;
     Alert.title := "Intrusion detected";
     Alert.message := "unexpected root login";
     Alert.context := None;
     Alert.channels := None;
     Alert.tags := None;
     Alert.timestamp := None |}.

(** An alert with an explicit, empty list of channels. *)
Definition muted : Alert.t :=
  {| Alert.severity := AlertSeverity.HIGH;
     Alert.title := "Cache miss rate";
     Alert.message := "42% misses";
     Alert.context := None;
     Alert.channels := Some [];
     Alert.tags := None;
     Alert.timestamp := Some 777 |}.

(** A call at time [t] during which every adapter throws. *)
Definition stormy (t : Z) : Ambient :=
  {| new_Date := t; Date_now := t; Date_now' := t;
     adapter := λ _, Throws "ETIMEDOUT" |}.

(** An alert with six entries of context, stamped. *)
Definition crowded : Alert.t :=
  {| Alert.severity := AlertSeverity.WARNING;
     Alert.title := "Slow query";
     Alert.message := "2.4 s";
     Alert.context :=
       Some [("table", JsString "users"); ("rows", JsNumber 120000);
             ("index", JsBoolean false); ("host", JsString "db-1");
             ("tags", JsArray ["sql"; "slow"]); ("plan", JsUndefined)];
     Alert.channels := None;
     Alert.tags := None;
     Alert.timestamp := Some 1700000000123 |}.

(** Lower-casing of the ASCII letters, which is [toLowerCase] on strings
    of ASCII characters. *)
Definition lowerAscii (c : ascii) : ascii :=
  let n := nat_of_ascii c in
  if (65 <=? n)%nat && (n <=? 90)%nat then ascii_of_nat (n + 32) else c.

Fixpoint lower (s : string) : string :=
  match s with
  | EmptyString => EmptyString
  | String c rest => String (lowerAscii c) (lower rest)
  end.

(** The fields of a login request. *)
Definition login : list (string * JsData) :=
  [("user", DString "ada");
   ("Password", DString "hunter2");
   ("apiKey", DString "k-123");
   ("device", DObject [("token", DString "t-9"); ("os", DString "linux")])].

End Examples.

(** * Properties *)

(** ** The rate limiter *)

Section RateLimiter.

Import AlertManager.

Implicit Types (m : AlertManager.t) (alert : Alert.t) (w : Ambient).

Lemma key_stamp alert d : key (Alert.stamp alert d) = key alert.
Proof. reflexivity. Qed.

Lemma key_eq alert alert' :
  Alert.title alert' = Alert.title alert →
  Alert.severity alert' = Alert.severity alert →
  key alert' = key alert.
Proof. unfold key. by intros -> ->. Qed.

(** The three ways through [isRateLimited]. *)
Lemma isRateLimited_first m alert now now' :
  rateLimiter m !! key alert = None →
  isRateLimited m alert now now' =
    (false, set_rateLimiter m (<[key alert := now]> (rateLimiter m))).
Proof. unfold isRateLimited. by intros ->. Qed.

Lemma isRateLimited_within m alert now now' last :
  rateLimiter m !! key alert = Some last →
  last ≠ 0 →
  now - last < rateLimitWindow →
  isRateLimited m alert now now' = (true, m).
Proof.
  unfold isRateLimited. intros -> Hlast Hwin.
  destruct (Z.eqb_spec last 0) as [|_]; [done|].
  by destruct (Z.ltb_spec (now - last) rateLimitWindow) as [_|]; [|lia].
Qed.

Lemma isRateLimited_elapsed m alert now now' last :
  rateLimiter m !! key alert = Some last →
  last ≠ 0 →
  rateLimitWindow ≤ now - last →
  isRateLimited m alert now now' =
    (false, set_rateLimiter m (<[key alert := now']> (rateLimiter m))).
Proof.
  unfold isRateLimited. intros -> Hlast Hwin.
  destruct (Z.eqb_spec last 0) as [|_]; [done|].
  by destruct (Z.ltb_spec (now - last) rateLimitWindow) as [|_]; [lia|].
Qed.

(** A rate-limited call changes nothing. *)
Lemma isRateLimited_true m alert now now' :
  fst (isRateLimited m alert now now') = true →
  snd (isRateLimited m alert now now') = m.
Proof.
  unfold isRateLimited.
  destruct (rateLimiter m !! key alert) as [last|]; [|done].
  destruct (last =? 0); [done|].
  by destruct (now - last <? rateLimitWindow).
Qed.

(** A call that is not rate limited touches the rate limiter only. *)
Lemma isRateLimited_false m alert now now' :
  fst (isRateLimited m alert now now') = false →
  ∃ t, snd (isRateLimited m alert now now') =
         set_rateLimiter m (<[key alert := t]> (rateLimiter m)).
Proof.
  unfold isRateLimited.
  destruct (rateLimiter m !! key alert) as [last|]; [|by eexists].
  destruct (last =? 0); [by eexists|].
  destruct (now - last <? rateLimitWindow); [done|by eexists].
Qed.

(** The two ways through [send]. *)
Lemma send_suppressed m alert w :
  suppressed m alert w = true →
  send m alert w =
    {| outcome := Returns; after := m;
       events := [Log Warn "Alert rate limited"] |}.
Proof.
  unfold suppressed, send. intros Hlim.
  pose proof (isRateLimited_true _ _ _ _ Hlim) as Hm.
  destruct (isRateLimited _ _ _ _) as [limited m']; simpl in *.
  by subst.
Qed.

Lemma send_dispatched m alert w :
  suppressed m alert w = false →
  let stamped := Alert.stamp alert (new_Date w) in
  let m' :=
    addToHistory (snd (isRateLimited m stamped (Date_now w) (Date_now' w)))
                 stamped in
  send m alert w =
    {| outcome := Returns; after := m';
       events :=
         concat (snd <$> fanOut m' stamped (resolveChannels stamped) w)
         ++ [Log Info "Alert sent"] |}.
Proof.
  unfold suppressed, send. intros Hlim.
  destruct (isRateLimited _ _ _ _) as [limited m']; simpl in *.
  by subst.
Qed.

(** A call that is not suppressed puts the stamped alert at the head of
    the history. *)
Lemma addToHistory_head m alert :
  head (alertHistory (addToHistory m alert)) = Some alert.
Proof.
  unfold addToHistory; simpl.
  destruct (maxHistorySize <? S (length (alertHistory m)))%nat eqn:Hfull;
    [|done].
  apply Nat.ltb_lt in Hfull. unfold maxHistorySize in Hfull.
  destruct (alertHistory m); simpl in *; [lia|done].
Qed.

Lemma send_records m alert w :
  suppressed m alert w = false →
  head (alertHistory (after (send m alert w))) =
    Some (Alert.stamp alert (new_Date w)).
Proof.
  intros Hlim. rewrite (send_dispatched _ _ _ Hlim); simpl.
  apply addToHistory_head.
Qed.

Lemma send_fans_out m alert w :
  suppressed m alert w = false →
  let stamped := Alert.stamp alert (new_Date w) in
  events (send m alert w) =
    concat (snd <$> fanOut (after (send m alert w)) stamped
                      (resolveChannels stamped) w)
    ++ [Log Info "Alert sent"].
Proof. intros Hlim. by rewrite (send_dispatched _ _ _ Hlim). Qed.

(** What a successful call leaves in the rate limiter for its key. *)
Lemma send_rateLimiter_key m alert w :
  suppressed m alert w = false →
  rateLimiter (after (send m alert w)) !! key alert = Some (Date_now w)
  ∨ rateLimiter (after (send m alert w)) !! key alert = Some (Date_now' w).
Proof.
  intros Hlim. rewrite (send_dispatched _ _ _ Hlim); simpl.
  unfold suppressed in Hlim. revert Hlim. unfold isRateLimited.
  rewrite key_stamp.
  destruct (rateLimiter m !! key alert) as [last|]; simpl.
  - destruct (last =? 0); simpl.
    + intros _. left. apply lookup_insert_eq.
    + destruct (_ <? rateLimitWindow); [done|]; simpl.
      intros _. right. apply lookup_insert_eq.
  - intros _. left. apply lookup_insert_eq.
Qed.

End RateLimiter.

(** ** A send that is suppressed *)

Section SendTwice.

Import AlertManager.

(** C9. A send that is suppressed, because the rate limiter holds for
    the alert's key a time less than 300000 ms before the call, returns
    with the manager as it was: the history, the rate limiter and the
    channels are unchanged, and the only event is the log line, so no
    adapter is entered. The time of the key being unchanged, a later
    alert of that key is let through as soon as the window has elapsed
    since the recorded send, however short the time since the suppressed
    attempt. *)
Theorem suppressed_send_changes_nothing
    (m : AlertManager.t) (alert : Alert.t) (w : Ambient) (last : Z) :
  rateLimiter m !! key alert = Some last →
  last ≠ 0 →
  Date_now w - last < rateLimitWindow →
  send m alert w =
    {| outcome := Returns; after := m;
       events := [Log Warn "Alert rate limited"] |}
  ∧ rateLimiter (after (send m alert w)) !! key alert = Some last
  ∧ alertHistory (after (send m alert w)) = alertHistory m
  ∧ (∀ (alert' : Alert.t) (w' : Ambient),
       key alert' = key alert →
       rateLimitWindow ≤ Date_now w' - last →
       suppressed (after (send m alert w)) alert' w' = false).
Proof.
  intros Hlast Hclock Hwithin.
  assert (suppressed m alert w = true) as Hlim.
  { unfold suppressed. by rewrite (isRateLimited_within _ _ _ _ last). }
  rewrite (send_suppressed _ _ _ Hlim); simpl.
  repeat split; try done.
  intros alert' w' Hkey Helapsed. unfold suppressed.
  rewrite (isRateLimited_elapsed _ _ _ _ last); try done.
  by rewrite key_stamp, Hkey.
Qed.

Lemma suppressed_send_changes_nothing_witness :
  let m :=
    after (send (AlertManager.new Examples.parseInt Examples.development)
                Examples.notice (Examples.calm 1000)) in
  send m Examples.notice (Examples.calm 300999) =
    {| outcome := Returns; after := m;
       events := [Log Warn "Alert rate limited"] |}
  ∧ suppressed (after (send m Examples.notice (Examples.calm 300999)))
      Examples.notice (Examples.calm 301000) = false.
Proof.
  intros m.
  destruct (suppressed_send_changes_nothing m Examples.notice
              (Examples.calm 300999) 1000)
    as (Hsame & _ & _ & Hlater);
    try reflexivity; try (vm_compute; congruence).
  split; [exact Hsame|].
  apply Hlater; [reflexivity|vm_compute; congruence].
Defined.

End SendTwice.

(** ** The fan-out *)

Section FanOut.

Import AlertManager.

Implicit Types (m : AlertManager.t) (alert : Alert.t) (w : Ambient).

Lemma elem_of_concat {A : Type} (x : A) (l : list A) (ls : list (list A)) :
  x ∈ l → l ∈ ls → x ∈ concat ls.
Proof.
  rewrite !list_elem_of_In. intros Hx Hl.
  apply in_concat. by exists l.
Qed.

Lemma sendToChannel_returns m alert channel o :
  fst (sendToChannel m alert channel o) = Returns.
Proof.
  unfold sendToChannel.
  destruct (channels m !! channel) as [cfg|]; [|done].
  destruct (enabled cfg); simpl; [|done]. by destruct channel, o.
Qed.

Lemma sendToChannel_enters m alert channel o cfg :
  channels m !! channel = Some cfg →
  enabled cfg = true →
  Adapter channel alert (adapterConfig channel cfg)
    ∈ snd (sendToChannel m alert channel o).
Proof.
  unfold sendToChannel. intros -> ->; simpl.
  destruct channel, o; simpl; apply list_elem_of_here.
Qed.

Lemma sendToChannel_logs m alert channel error cfg :
  channels m !! channel = Some cfg →
  enabled cfg = true →
  Log Error ("Failed to send alert to " +:+ AlertChannel_to_string channel)
    ∈ snd (sendToChannel m alert channel (Throws error)).
Proof.
  unfold sendToChannel. intros -> ->; simpl.
  destruct channel; apply list_elem_of_further, list_elem_of_here.
Qed.

(** A channel that is missing or disabled is skipped: no adapter. *)
Lemma sendToChannel_skips m alert channel o :
  (∀ cfg, channels m !! channel = Some cfg → enabled cfg = false) →
  snd (sendToChannel m alert channel o) =
    [Log Debug ("Channel " +:+ AlertChannel_to_string channel +:+
                " not enabled, skipping")].
Proof.
  unfold sendToChannel. intros Hoff.
  destruct (channels m !! channel) as [cfg|]; [|done].
  by rewrite (Hoff cfg).
Qed.

Lemma fanOut_events m alert targets w i channel e :
  targets !! i = Some channel →
  e ∈ snd (sendToChannel m alert channel (adapter w i)) →
  e ∈ concat (snd <$> fanOut m alert targets w).
Proof.
  intros Hi He. eapply elem_of_concat; [exact He|].
  apply list_elem_of_lookup. exists i.
  unfold fanOut. by rewrite list_lookup_fmap, list_lookup_imap, Hi.
Qed.

(** [send] never assigns the channels. *)
Lemma send_channels m alert w :
  channels (after (send m alert w)) = channels m.
Proof.
  destruct (suppressed m alert w) eqn:Hlim.
  - by rewrite (send_suppressed _ _ _ Hlim).
  - rewrite (send_dispatched _ _ _ Hlim); simpl.
    destruct (isRateLimited_false _ _ _ _ Hlim) as [t ->]. done.
Qed.

Lemma send_returns m alert w : outcome (send m alert w) = Returns.
Proof.
  destruct (suppressed m alert w) eqn:Hlim.
  - by rewrite (send_suppressed _ _ _ Hlim).
  - by rewrite (send_dispatched _ _ _ Hlim).
Qed.

(** C2. [send] returns, whatever the adapters do, and so does every
    [sendToChannel]. When the alert is not suppressed, every resolved
    channel that is configured and enabled has its adapter entered with
    the stamped alert, whatever the adapters of the other channels do,
    and what the adapter of a channel throws is logged as an error. *)
Theorem send_settles_every_channel
    (m : AlertManager.t) (alert : Alert.t) (w : Ambient) :
  let stamped := Alert.stamp alert (new_Date w) in
  outcome (send m alert w) = Returns
  ∧ (∀ (channel : AlertChannel) (o : Outcome),
       fst (sendToChannel m alert channel o) = Returns)
  ∧ (suppressed m alert w = false →
     ∀ (i : nat) (channel : AlertChannel) (cfg : ChannelConfig),
       resolveChannels stamped !! i = Some channel →
       channels m !! channel = Some cfg →
       enabled cfg = true →
       Adapter channel stamped (adapterConfig channel cfg)
         ∈ events (send m alert w)
       ∧ (∀ error : string,
            adapter w i = Throws error →
            Log Error ("Failed to send alert to " +:+
                       AlertChannel_to_string channel)
              ∈ events (send m alert w))).
Proof.
  intros stamped. split; [apply send_returns|].
  split; [intros; apply sendToChannel_returns|].
  intros Hlim i channel cfg Hi Hcfg Hon.
  rewrite (send_fans_out _ _ _ Hlim); fold stamped.
  rewrite <- (send_channels m alert w) in Hcfg.
  split.
  - apply elem_of_app; left.
    eapply fanOut_events; [exact Hi|].
    by apply sendToChannel_enters.
  - intros error Hthrows.
    apply elem_of_app; left.
    eapply fanOut_events; [exact Hi|].
    rewrite Hthrows. by apply (sendToChannel_logs _ _ _ _ cfg).
Qed.

Lemma send_settles_every_channel_witness :
  let m := AlertManager.new Examples.parseInt Examples.staffed in
  let sent := send m Examples.outage (Examples.firstThrows 1000) in
  suppressed m Examples.outage (Examples.firstThrows 1000) = false
  ∧ outcome sent = Returns
  ∧ Log Error "Failed to send alert to slack" ∈ events sent
  ∧ Adapter CONSOLE (Alert.stamp Examples.outage 1000) [] ∈ events sent.
Proof.
  intros m sent.
  assert (suppressed m Examples.outage (Examples.firstThrows 1000) = false)
    as Hlim by (vm_compute; reflexivity).
  destruct (send_settles_every_channel m Examples.outage
              (Examples.firstThrows 1000)) as (Hret & _ & Hall).
  destruct (Hall Hlim 0%nat SLACK
              {| enabled := true;
                 config := [("webhookUrl",
                              JsString "https://hooks.example/T0");
                            ("channel", JsString "#alerts");
                            ("username", JsString "Alert Bot")] |})
    as [_ Hlog]; try (vm_compute; reflexivity).
  destruct (Hall Hlim 1%nat CONSOLE {| enabled := true; config := [] |})
    as [Hconsole _]; try (vm_compute; reflexivity).
  repeat split; try assumption.
  exact (Hlog "ECONNREFUSED" eq_refl).
Defined.

End FanOut.

(** ** The history *)

Section History.

Import AlertManager.

Implicit Types (m : AlertManager.t) (alert : Alert.t) (w : Ambient).

(** The constructor leaves the history and the rate limiter empty. *)
Lemma new_alertHistory parseInt env :
  alertHistory (AlertManager.new parseInt env) = [].
Proof.
  unfold AlertManager.new, initializeChannels.
  by repeat destruct (truthy _).
Qed.

Lemma new_rateLimiter parseInt env :
  rateLimiter (AlertManager.new parseInt env) = ∅.
Proof.
  unfold AlertManager.new, initializeChannels.
  by repeat destruct (truthy _).
Qed.

Lemma removelast_take {A : Type} (l : list A) :
  removelast l = take (pred (length l)) l.
Proof. apply removelast_firstn_len. Qed.

(** [addToHistory] keeps the newest [maxHistorySize] alerts of a history
    within the capacity. *)
Lemma addToHistory_take m alert :
  (length (alertHistory m) ≤ maxHistorySize)%nat →
  alertHistory (addToHistory m alert) =
    take maxHistorySize (alert :: alertHistory m).
Proof.
  intros Hlen. unfold addToHistory, set_alertHistory.
  cbn [alertHistory].
  destruct (maxHistorySize <? length (alert :: alertHistory m))%nat
    eqn:Hfull.
  - apply Nat.ltb_lt in Hfull. rewrite removelast_take.
    cbn [length] in *.
    replace (Init.Nat.pred (S (length (alertHistory m))))
      with maxHistorySize by lia.
    done.
  - apply Nat.ltb_ge in Hfull. by rewrite take_ge.
Qed.

Lemma addToHistory_evicts m alert rest oldest :
  alertHistory m = rest ++ [oldest] →
  length (alertHistory m) = maxHistorySize →
  alertHistory (addToHistory m alert) = alert :: rest.
Proof.
  intros Hsplit Hlen. unfold addToHistory, set_alertHistory.
  cbn [alertHistory].
  destruct (maxHistorySize <? length (alert :: alertHistory m))%nat
    eqn:Hfull.
  2: { apply Nat.ltb_ge in Hfull. cbn [length] in Hfull. lia. }
  rewrite Hsplit.
  change (alert :: rest ++ [oldest]) with ((alert :: rest) ++ [oldest]).
  apply removelast_last.
Qed.

(** What a call that is not suppressed does to the history. *)
Lemma send_history m alert w :
  suppressed m alert w = false →
  alertHistory (after (send m alert w)) =
    alertHistory
      (addToHistory m (Alert.stamp alert (new_Date w))).
Proof.
  intros Hlim. rewrite (send_dispatched _ _ _ Hlim); simpl after.
  destruct (isRateLimited_false _ _ _ _ Hlim) as [t ->]. done.
Qed.

Lemma take_app_take {A : Type} (n : nat) (l k : list A) :
  take n (l ++ take n k) = take n (l ++ k).
Proof.
  rewrite !take_app. f_equal.
  rewrite take_take. f_equal. lia.
Qed.

Lemma sends_history m calls :
  (length (alertHistory m) ≤ maxHistorySize)%nat →
  alertHistory (sends m calls) =
    take maxHistorySize (rev (recorded m calls) ++ alertHistory m).
Proof.
  revert m. induction calls as [|[alert w] calls IH]; intros m Hlen.
  - simpl. by rewrite take_ge.
  - change (sends m ((alert, w) :: calls))
      with (sends (after (send m alert w)) calls).
    simpl recorded.
    destruct (suppressed m alert w) eqn:Hlim.
    + rewrite (send_suppressed _ _ _ Hlim) in *; simpl after in *.
      by apply IH.
    + assert (alertHistory (after (send m alert w)) =
                take maxHistorySize
                  (Alert.stamp alert (new_Date w) :: alertHistory m))
        as Hstep.
      { rewrite send_history by done. by apply addToHistory_take. }
      rewrite IH.
      * rewrite Hstep, take_app_take. simpl rev.
        by rewrite <- app_assoc.
      * rewrite Hstep, length_take. lia.
Qed.

(** The bound holds whatever else the process does to the manager. *)
Lemma step_history_bound m op :
  (length (alertHistory m) ≤ maxHistorySize)%nat →
  (length (alertHistory (step m op)) ≤ maxHistorySize)%nat.
Proof.
  intros Hlen. destruct op as [alert w| |channel cfg]; simpl; try done.
  - destruct (suppressed m alert w) eqn:Hlim.
    + by rewrite (send_suppressed _ _ _ Hlim).
    + rewrite send_history, addToHistory_take, length_take by done. lia.
  - unfold maxHistorySize. lia.
Qed.

Lemma reachable_history_bound parseInt m :
  reachable parseInt m → (length (alertHistory m) ≤ maxHistorySize)%nat.
Proof.
  intros (env & ops & ->).
  induction ops as [|op ops IH] using rev_ind.
  - cbn [fold_left]. rewrite new_alertHistory. simpl. lia.
  - rewrite fold_left_app. by apply step_history_bound.
Qed.

(** C3. After any sequence of [send] calls on a constructed manager the
    history holds at most 100 alerts: the 100 most recently recorded,
    the newest first. And when an alert is recorded while the history
    holds 100, the last one of the history, the oldest, is the one that
    leaves. *)
Theorem history_is_a_bounded_ring :
  (∀ (parseInt : string → JsValue) (env : ProcessEnv)
     (calls : list (Alert.t * Ambient)),
     let m := sends (AlertManager.new parseInt env) calls in
     (length (alertHistory m) ≤ 100)%nat
     ∧ alertHistory m =
         take 100 (rev (recorded (AlertManager.new parseInt env) calls)))
  ∧ (∀ (m : AlertManager.t) (alert : Alert.t) (w : Ambient)
       (rest : list Alert.t) (oldest : Alert.t),
       alertHistory m = rest ++ [oldest] →
       length (alertHistory m) = 100%nat →
       suppressed m alert w = false →
       alertHistory (after (send m alert w)) =
         Alert.stamp alert (new_Date w) :: rest).
Proof.
  split.
  - intros parseInt env calls m.
    assert (alertHistory m =
              take 100 (rev (recorded (AlertManager.new parseInt env) calls)))
      as Hhistory.
    { unfold m. rewrite sends_history.
      - by rewrite new_alertHistory, app_nil_r.
      - rewrite new_alertHistory. simpl. lia. }
    split; [|done]. rewrite Hhistory, length_take. lia.
  - intros m alert w rest oldest Hsplit Hlen Hlim.
    rewrite send_history by done.
    by apply (addToHistory_evicts _ _ _ oldest).
Qed.

Lemma history_is_a_bounded_ring_witness :
  length (alertHistory Examples.full) = 100%nat
  ∧ alertHistory
      (after (send Examples.full Examples.notice (Examples.calm 1000))) =
      Alert.stamp Examples.notice 1000 :: replicate 99 Examples.outage.
Proof.
  split; [reflexivity|].
  destruct history_is_a_bounded_ring as [_ Hevict].
  apply (Hevict Examples.full Examples.notice (Examples.calm 1000)
           (replicate 99 Examples.outage) Examples.outage);
    vm_compute; reflexivity.
Defined.

(** [slice(0, end)] is a prefix, whatever [end]. *)
Lemma slice0_prefix {A : Type} (arr : list A) (end_ : Z) :
  slice0 arr end_ `prefix_of` arr.
Proof. unfold slice0. apply prefix_take. Qed.

Lemma slice0_nonneg {A : Type} (arr : list A) (end_ : Z) :
  0 ≤ end_ → slice0 arr end_ = take (Z.to_nat end_) arr.
Proof.
  intros Hend. unfold slice0.
  destruct (Z.ltb_spec end_ 0) as [|_]; [lia|].
  destruct (Z.min_spec end_ (Z.of_nat (length arr))) as [[_ ->]|[Hle ->]];
    [done|].
  rewrite Nat2Z.id, !take_ge; [done|lia|lia].
Qed.

(** [getHistory(-1)] on a history of two alerts returns one alert, which
    is more than the limit. *)
Lemma getHistory_negative_limit :
  getHistory Examples.pair (Some (-1)) = [Examples.outage]
  ∧ ¬ Z.of_nat (length (getHistory Examples.pair (Some (-1)))) ≤ -1.
Proof. split; [reflexivity|]. vm_compute. congruence. Qed.

(** C10, amended. For every limit that is not negative (10 when the
    limit is omitted), [getHistory] returns the first alerts of the
    history up to the limit, so at most that many, and the newest first:
    after a send that is not suppressed its first alert, for a positive
    limit, is the alert just recorded. It returns a list and takes the
    manager as it is. For any limit at all the result is a prefix of the
    history. *)
Theorem getHistory_newest_first
    (m : AlertManager.t) (limit : option Z) :
  let n := default 10 limit in
  getHistory m limit `prefix_of` alertHistory m
  ∧ getHistory m None = take 10 (alertHistory m)
  ∧ (0 ≤ n →
     getHistory m limit = take (Z.to_nat n) (alertHistory m)
     ∧ Z.of_nat (length (getHistory m limit)) ≤ n)
  ∧ (0 < n →
     ∀ (alert : Alert.t) (w : Ambient),
       suppressed m alert w = false →
       head (getHistory (after (send m alert w)) limit) =
         Some (Alert.stamp alert (new_Date w))).
Proof.
  intros n. unfold getHistory. fold n.
  split; [apply slice0_prefix|].
  split; [by apply slice0_nonneg|].
  split.
  - intros Hn. rewrite slice0_nonneg by done.
    split; [done|]. rewrite length_take. lia.
  - intros Hn alert w Hlim. rewrite slice0_nonneg by lia.
    pose proof (send_records _ _ _ Hlim) as Hhead.
    destruct (alertHistory (after (send m alert w))) as [|newest history];
      [done|].
    destruct (Z.to_nat n) eqn:Hnat; [lia|done].
Qed.

Lemma getHistory_newest_first_witness :
  getHistory Examples.pair (Some 1) = [Examples.outage]
  ∧ Z.of_nat (length (getHistory Examples.pair (Some 1))) ≤ 1
  ∧ head (getHistory
            (after (send Examples.pair Examples.notice
                      (Examples.calm 1000)))
            (Some 1)) =
      Some (Alert.stamp Examples.notice 1000).
Proof.
  destruct (getHistory_newest_first Examples.pair (Some 1))
    as (_ & _ & Hbound & Hnewest).
  destruct Hbound as [Htake Hlen]; [simpl; lia|].
  split; [rewrite Htake; reflexivity|].
  split; [exact Hlen|].
  apply Hnewest; [simpl; lia|vm_compute; reflexivity].
Defined.

End History.

(** ** The channels of an alert *)

Section Channels.

Import AlertManager.

Implicit Types (m : AlertManager.t) (alert : Alert.t) (w : Ambient).

Lemma resolveChannels_stamp alert d :
  resolveChannels (Alert.stamp alert d) = resolveChannels alert.
Proof. reflexivity. Qed.

(** C5. The channels [send] fans an alert out to are the alert's own
    list when it has one, an empty list included; otherwise they follow
    from the severity alone: critical gives slack, pagerduty and email,
    high gives slack and email, warning gives slack, and info, like any
    other value, gives the console. *)
Theorem send_resolves_channels (alert : Alert.t) :
  (∀ explicit : list AlertChannel,
     Alert.channels alert = Some explicit →
     resolveChannels alert = explicit)
  ∧ (Alert.channels alert = None →
     (Alert.severity alert = "critical" →
      resolveChannels alert = [SLACK; PAGERDUTY; EMAIL])
     ∧ (Alert.severity alert = "high" →
        resolveChannels alert = [SLACK; EMAIL])
     ∧ (Alert.severity alert = "warning" →
        resolveChannels alert = [SLACK])
     ∧ (Alert.severity alert = "info" →
        resolveChannels alert = [CONSOLE])
     ∧ (Alert.severity alert ≠ "critical" →
        Alert.severity alert ≠ "high" →
        Alert.severity alert ≠ "warning" →
        resolveChannels alert = [CONSOLE]))
  ∧ (∀ (m : AlertManager.t) (w : Ambient),
       suppressed m alert w = false →
       events (send m alert w) =
         concat (snd <$> fanOut (after (send m alert w))
                           (Alert.stamp alert (new_Date w))
                           (resolveChannels alert) w)
         ++ [Log Info "Alert sent"]).
Proof.
  split; [|split].
  - intros explicit Hexplicit. unfold resolveChannels. by rewrite Hexplicit.
  - intros Hnone. unfold resolveChannels, getDefaultChannels.
    rewrite Hnone.
    repeat split.
    + by intros ->.
    + by intros ->.
    + by intros ->.
    + by intros ->.
    + intros Hcritical Hhigh Hwarning.
      destruct (String.eqb_spec (Alert.severity alert) AlertSeverity.CRITICAL);
        [done|].
      destruct (String.eqb_spec (Alert.severity alert) AlertSeverity.HIGH);
        [done|].
      by destruct
        (String.eqb_spec (Alert.severity alert) AlertSeverity.WARNING).
  - intros m w Hlim. by rewrite (send_fans_out _ _ _ Hlim).
Qed.

Lemma send_resolves_channels_witness :
  resolveChannels Examples.outage = [SLACK; CONSOLE]
  ∧ resolveChannels Examples.notice = [CONSOLE]
  ∧ events
      (send (AlertManager.new Examples.parseInt Examples.development)
            Examples.notice (Examples.calm 1000)) =
      [Adapter CONSOLE (Alert.stamp Examples.notice 1000) [];
       Log Info "Alert sent"].
Proof.
  destruct (send_resolves_channels Examples.outage) as [Hexplicit _].
  destruct (send_resolves_channels Examples.notice)
    as (_ & Htable & Hsend).
  destruct Htable as (_ & _ & _ & Hinfo & _); [reflexivity|].
  split; [by apply Hexplicit|].
  split; [by apply Hinfo|].
  rewrite Hsend by (vm_compute; reflexivity).
  vm_compute. reflexivity.
Defined.

(** An adapter is entered only for a channel that is configured and
    enabled. *)
Lemma sendToChannel_adapter m alert channel o c a cfg :
  Adapter c a cfg ∈ snd (sendToChannel m alert channel o) →
  c = channel
  ∧ ∃ channelConfig,
      channels m !! channel = Some channelConfig
      ∧ enabled channelConfig = true.
Proof.
  unfold sendToChannel.
  destruct (channels m !! channel) as [channelConfig|]; simpl.
  - destruct (enabled channelConfig) eqn:Hon; simpl.
    + destruct channel, o; simpl; intros Hin;
        repeat (apply elem_of_cons in Hin as [Hin|Hin];
                [try discriminate Hin|]);
        try (by apply elem_of_nil in Hin);
        injection Hin as -> _ _; (split; [done|by exists channelConfig]).
    + intros Hin. apply list_elem_of_singleton in Hin. discriminate.
  - intros Hin. apply list_elem_of_singleton in Hin. discriminate.
Qed.

Lemma fanOut_adapter m alert targets w c a cfg :
  Adapter c a cfg ∈ concat (snd <$> fanOut m alert targets w) →
  ∃ channelConfig,
    channels m !! c = Some channelConfig ∧ enabled channelConfig = true.
Proof.
  rewrite list_elem_of_In. intros Hin.
  apply in_concat in Hin as (l & Hl & Hin).
  apply list_elem_of_In in Hl, Hin.
  apply list_elem_of_fmap in Hl as ([o es] & -> & Hpair).
  apply list_elem_of_lookup in Hpair as [i Hi].
  unfold fanOut in Hi. rewrite list_lookup_imap in Hi.
  destruct (targets !! i) as [channel|]; [|done].
  simpl in Hi. injection Hi as Hi. rewrite <- Hi in Hin.
  by apply sendToChannel_adapter in Hin as [-> ?].
Qed.

(** In an environment whose [NODE_ENV] is production, an info alert,
    which resolves to the console, is skipped: the console channel is
    disabled and nothing is printed. *)
Lemma console_skipped_in_production :
  let m := AlertManager.new Examples.parseInt Examples.production in
  CONSOLE ∈ resolveChannels Examples.notice
  ∧ enabled <$> channels m !! CONSOLE = Some false
  ∧ events (send m Examples.notice (Examples.calm 1000)) =
      [Log Debug "Channel console not enabled, skipping";
       Log Info "Alert sent"].
Proof.
  split; [apply list_elem_of_here|].
  split; vm_compute; reflexivity.
Qed.

(** C4, amended. The constructor always registers the console channel,
    whatever the environment, and enables it exactly when [NODE_ENV] is
    development. For an alert that is not suppressed and whose resolved
    channels include the console, the console adapter is entered when
    the channel is enabled, and is not when it is disabled. *)
Theorem console_enabled_in_development :
  (∀ (parseInt : string → JsValue) (env : ProcessEnv),
     channels (AlertManager.new parseInt env) !! CONSOLE =
       Some {| enabled :=
                 bool_decide (env !! "NODE_ENV" = Some "development");
               config := [] |})
  ∧ (∀ (m : AlertManager.t) (alert : Alert.t) (w : Ambient)
       (cfg : ChannelConfig),
       channels m !! CONSOLE = Some cfg →
       suppressed m alert w = false →
       CONSOLE ∈ resolveChannels alert →
       if enabled cfg then
         Adapter CONSOLE (Alert.stamp alert (new_Date w)) []
           ∈ events (send m alert w)
       else
         ∀ (a : Alert.t) (c : list (string * JsValue)),
           Adapter CONSOLE a c ∉ events (send m alert w)).
Proof.
  split.
  - intros parseInt env. unfold AlertManager.new, initializeChannels.
    repeat destruct (truthy _); simpl; apply lookup_insert_eq.
  - intros m alert w cfg Hcfg Hlim Hconsole.
    rewrite (send_fans_out _ _ _ Hlim).
    rewrite <- (send_channels m alert w) in Hcfg.
    destruct (enabled cfg) eqn:Hon.
    + apply list_elem_of_lookup in Hconsole as [i Hi].
      apply elem_of_app; left.
      eapply fanOut_events; [exact Hi|].
      by apply (sendToChannel_enters _ _ CONSOLE _ cfg).
    + intros a c Hin. apply elem_of_app in Hin as [Hin|Hin].
      * apply fanOut_adapter in Hin as (cfg' & Hcfg' & Hon').
        congruence.
      * apply list_elem_of_singleton in Hin. discriminate.
Qed.

Lemma console_enabled_in_development_witness :
  let m := AlertManager.new Examples.parseInt Examples.development in
  channels m !! CONSOLE = Some {| enabled := true; config := [] |}
  ∧ Adapter CONSOLE (Alert.stamp Examples.notice 1000) []
      ∈ events (send m Examples.notice (Examples.calm 1000)).
Proof.
  intros m.
  destruct console_enabled_in_development as [Hnew Hsend].
  split; [exact (Hnew Examples.parseInt Examples.development)|].
  apply (Hsend m Examples.notice (Examples.calm 1000)
           {| enabled := true; config := [] |}).
  - exact (Hnew Examples.parseInt Examples.development).
  - vm_compute. reflexivity.
  - apply list_elem_of_here.
Defined.

End Channels.

(** ** The normaliser *)

Section Normalizer.

Import ErrorNormalizer.

(** C8. A failure that is a canonical error already is returned as it
    is, and no identity is allocated for it; so normalising the result
    of a normalisation gives that result again, with the allocator where
    the first normalisation left it. *)
Theorem normalize_idempotent :
  (∀ (error : CanonicalError) (nextId : nat) (now : Z)
     (ctx : AmbientContext),
     normalize (Canonical error) nextId now ctx = (error, nextId))
  ∧ (∀ (failure : Failure) (nextId : nat) (now now' : Z)
       (ctx ctx' : AmbientContext),
       let once := normalize failure nextId now ctx in
       normalize (Canonical (fst once)) (snd once) now' ctx' = once).
Proof.
  split; [done|].
  intros failure nextId now now' ctx ctx' once.
  by destruct once.
Qed.

(** A failure that is not canonical takes a fresh identity. *)
Lemma normalize_allocates msg stack nextId now ctx :
  id (fst (normalize (Foreign msg stack) nextId now ctx)) = nextId
  ∧ snd (normalize (Foreign msg stack) nextId now ctx) = S nextId.
Proof. done. Qed.

End Normalizer.

(** ** The circuit breakers *)

Section Breakers.

Import CircuitBreakerRegistry.

Variable halfOpenFailure : CircuitBreaker.t → Z → CircuitBreaker.t.

Implicit Types (r : CircuitBreakerRegistry.t) (key : string).

Lemma breaker_recordFailure r key now :
  breaker (fst (recordFailure halfOpenFailure r key now)) key =
    fst (fst (CircuitBreaker.recordFailure halfOpenFailure
                (breaker r key) now)).
Proof.
  unfold recordFailure.
  destruct (CircuitBreaker.recordFailure _ _ _) as [[b es] timer]; simpl.
  unfold breaker at 1; simpl. by rewrite lookup_insert_eq.
Qed.

(** The breakers of the other keys are left alone. *)
Lemma breaker_recordFailure_other r key key' now :
  key ≠ key' →
  breaker (fst (recordFailure halfOpenFailure r key now)) key' =
    breaker r key'.
Proof.
  intros Hne. unfold recordFailure.
  destruct (CircuitBreaker.recordFailure _ _ _) as [[b es] timer]; simpl.
  unfold breaker; simpl. by rewrite lookup_insert_ne.
Qed.

Lemma recordFailures_snoc r key times now :
  recordFailures halfOpenFailure r key (times ++ [now]) =
    fst (recordFailure halfOpenFailure
           (recordFailures halfOpenFailure r key times) key now).
Proof. unfold recordFailures. by rewrite fold_left_app. Qed.

(** Below the threshold a closed breaker counts and stays closed. *)
Lemma recordFailures_counts r key times N :
  CircuitBreaker.state (breaker r key) = CircuitBreaker.closed →
  CircuitBreaker.failures (breaker r key) = 0%nat →
  CircuitBreaker.threshold (breaker r key) = N →
  (length times < N)%nat →
  let b := breaker (recordFailures halfOpenFailure r key times) key in
  CircuitBreaker.state b = CircuitBreaker.closed
  ∧ CircuitBreaker.failures b = length times
  ∧ CircuitBreaker.threshold b = N.
Proof.
  intros Hclosed Hzero HN.
  induction times as [|now times IH] using rev_ind; intros Hlen b.
  - done.
  - rewrite length_app in Hlen; simpl in Hlen.
    destruct IH as (Hstate & Hcount & Hthreshold); [lia|].
    unfold b. rewrite recordFailures_snoc, breaker_recordFailure.
    unfold CircuitBreaker.recordFailure.
    rewrite Hstate, Hcount, Hthreshold; simpl.
    destruct (Nat.leb_spec N (S (length times))) as [|_]; [lia|].
    simpl. rewrite length_app; simpl. repeat split; lia.
Qed.

(** C7. A breaker of key [key] that is closed with no failure counted
    (as a breaker is when its key is first used) and whose threshold is
    [N], at least 1, is still closed after fewer than [N] consecutive
    [recordFailure] calls for the key, and is open after the [N]-th. *)
Theorem breaker_opens_on_the_threshold
    (r : CircuitBreakerRegistry.t) (key : string) (N : nat)
    (times : list Z) :
  CircuitBreaker.state (breaker r key) = CircuitBreaker.closed →
  CircuitBreaker.failures (breaker r key) = 0%nat →
  CircuitBreaker.threshold (breaker r key) = N →
  (1 ≤ N)%nat →
  let r' := recordFailures halfOpenFailure r key times in
  ((length times < N)%nat →
   getState r' key = CircuitBreaker.closed ∧ isOpen r' key = false)
  ∧ (length times = N →
     getState r' key = CircuitBreaker.open ∧ isOpen r' key = true).
Proof.
  intros Hclosed Hzero HN Hpos r'. split.
  - intros Hlen.
    destruct (recordFailures_counts r key times N) as (Hstate & _);
      try done.
    unfold isOpen, getState, r'. rewrite Hstate.
    split; [done|]. by apply bool_decide_eq_false.
  - intros Hlen.
    destruct times as [|now times _] using rev_ind;
      [simpl in Hlen; lia|].
    rewrite length_app in Hlen; simpl in Hlen.
    destruct (recordFailures_counts r key times N)
      as (Hstate & Hcount & Hthreshold); try done; [lia|].
    assert (getState r' key = CircuitBreaker.open) as Hopen.
    { unfold getState, r'.
      rewrite recordFailures_snoc, breaker_recordFailure.
      unfold CircuitBreaker.recordFailure.
      rewrite Hstate, Hcount, Hthreshold; simpl.
      by destruct (Nat.leb_spec N (S (length times))) as [_|]; [|lia]. }
    split; [done|]. unfold isOpen. rewrite Hopen.
    by apply bool_decide_eq_true.
Qed.

End Breakers.

Lemma breaker_opens_on_the_threshold_witness :
  let key := "external_service:PAYMENT_GATEWAY_DOWN" in
  let record :=
    CircuitBreakerRegistry.recordFailures Examples.reopen
      CircuitBreakerRegistry.new key in
  CircuitBreakerRegistry.isOpen (record [10; 20; 30; 40]) key = false
  ∧ CircuitBreakerRegistry.isOpen (record [10; 20; 30; 40; 50]) key = true.
Proof.
  intros key record. split.
  - apply (breaker_opens_on_the_threshold Examples.reopen
             CircuitBreakerRegistry.new key 5 [10; 20; 30; 40]);
      (reflexivity || (simpl; lia)).
  - apply (breaker_opens_on_the_threshold Examples.reopen
             CircuitBreakerRegistry.new key 5 [10; 20; 30; 40; 50]);
      (reflexivity || (simpl; lia)).
Defined.

(** ** The alert gate *)

Section AlertGate.

Import AlertManager.

Implicit Types (m : AlertManager.t) (alert : Alert.t) (w : Ambient).

Lemma suppressed_has_entry m alert w :
  suppressed m alert w = true → rateLimiter m ≠ ∅.
Proof.
  unfold suppressed, isRateLimited. rewrite key_stamp.
  destruct (rateLimiter m !! key alert) as [last|] eqn:Hlast; [|done].
  intros _ Hempty. rewrite Hempty in Hlast. by rewrite lookup_empty in Hlast.
Qed.

(** After a send the history holds an alert, if it did before or if the
    manager was settled. *)
Lemma send_history_nonempty m alert w :
  settled m ∨ alertHistory m ≠ [] →
  alertHistory (after (send m alert w)) ≠ [].
Proof.
  intros Hm. destruct (suppressed m alert w) eqn:Hlim.
  - rewrite (send_suppressed _ _ _ Hlim); simpl.
    destruct Hm as [Hsettled|]; [|done].
    intros Hempty. by apply (suppressed_has_entry _ _ _ Hlim), Hsettled.
  - pose proof (send_records _ _ _ Hlim) as Hhead.
    intros Hempty. by rewrite Hempty in Hhead.
Qed.

Lemma send_settled m alert w : settled m → settled (after (send m alert w)).
Proof.
  intros Hsettled Hempty.
  by destruct (send_history_nonempty m alert w (or_introl Hsettled)).
Qed.

Lemma step_settled m op : settled m → settled (step m op).
Proof.
  destruct op as [alert w| |channel cfg]; simpl.
  - apply send_settled.
  - done.
  - done.
Qed.

Lemma reachable_settled parseInt m : reachable parseInt m → settled m.
Proof.
  intros (env & ops & ->).
  induction ops as [|op ops IH] using rev_ind.
  - intros _. apply new_rateLimiter.
  - rewrite fold_left_app. by apply step_settled.
Qed.

(** A send keeps the alert at the head of the history in the history. *)
Lemma addToHistory_keeps_head m alert newest :
  head (alertHistory m) = Some newest →
  newest ∈ alertHistory (addToHistory m alert).
Proof.
  unfold addToHistory, set_alertHistory. cbn [alertHistory].
  destruct (alertHistory m) as [|x history]; [done|].
  intros [= ->].
  destruct (maxHistorySize <? length (alert :: newest :: history))%nat
    eqn:Hfull.
  - apply Nat.ltb_lt in Hfull. cbn [length] in Hfull.
    unfold maxHistorySize in Hfull.
    destruct history as [|y history]; [simpl in Hfull; lia|].
    apply list_elem_of_further, list_elem_of_here.
  - apply list_elem_of_further, list_elem_of_here.
Qed.

Lemma send_keeps_head m alert w newest :
  head (alertHistory m) = Some newest →
  newest ∈ alertHistory (after (send m alert w)).
Proof.
  intros Hhead. destruct (suppressed m alert w) eqn:Hlim.
  - rewrite (send_suppressed _ _ _ Hlim); simpl.
    destruct (alertHistory m); [done|].
    injection Hhead as ->. apply list_elem_of_here.
  - rewrite send_history by done. by apply addToHistory_keeps_head.
Qed.

End AlertGate.

Section Facade.

Import AlertManager ErrorHandler.

Variable halfOpenFailure : CircuitBreaker.t → Z → CircuitBreaker.t.
Variable criticalAlert : CanonicalError → Alert.t.
Variable rateAlert : CanonicalError → nat → Alert.t.
Variable escalationAlert : CanonicalError → Alert.t.

Local Abbreviation handle :=
  (ErrorHandler.handle halfOpenFailure criticalAlert rateAlert
     escalationAlert).
Local Abbreviation attempt :=
  (RecoveryOrchestrator.attempt halfOpenFailure escalationAlert).

(** The recovery of an error keeps what the history holds. *)
Lemma attempt_history breakers alerts error w :
  let alerts' := snd (fst (attempt breakers alerts error w)) in
  (alertHistory alerts ≠ [] → alertHistory alerts' ≠ [])
  ∧ (∀ newest, head (alertHistory alerts) = Some newest →
               newest ∈ alertHistory alerts').
Proof.
  unfold RecoveryOrchestrator.attempt.
  assert (∀ newest, head (alertHistory alerts) = Some newest →
                    newest ∈ alertHistory alerts) as Hhead.
  { intros newest. destruct (alertHistory alerts); [done|].
    intros [= ->]. apply list_elem_of_here. }
  destruct (recovery error) as [[]|]; simpl; try done.
  - by destruct (CircuitBreakerRegistry.recordFailure _ _ _ _).
  - split.
    + intros Hne. apply send_history_nonempty. by right.
    + intros newest. apply send_keeps_head.
Qed.

(** C6. On a manager that the process can have reached, [handle] of a
    failure whose canonical record is critical returns with at least one
    alert recorded in the history, whatever the failure registry had
    counted for the record's key. The alert gate passes the alert of the
    failure to [send] without looking at the count: when the rate limiter
    lets it through, that alert, stamped, is in the history; when an
    alert of the same title and severity was sent within the window,
    [send] suppresses the repeat (for an error that is not recoverable
    the alert manager is then left as it was), and the history holds an
    alert recorded before. *)
Theorem critical_failure_leaves_an_alert
    (parseInt : string → JsValue) (h : ErrorHandler.t)
    (failure : Failure) (w : HandleAmbient) :
  let error :=
    fst (ErrorNormalizer.normalize failure (nextId h) (h_now w)
           (h_context w)) in
  reachable parseInt (alertManager h) →
  severity error = ErrorSeverity.CRITICAL →
  let h' := after (handle h failure w) in
  outcome (handle h failure w) = Returns
  ∧ (1 ≤ length (alertHistory (alertManager h')))%nat
  ∧ (suppressed (alertManager h) (criticalAlert error) (h_gate w) = false →
     Alert.stamp (criticalAlert error) (new_Date (h_gate w))
       ∈ alertHistory (alertManager h'))
  ∧ (suppressed (alertManager h) (criticalAlert error) (h_gate w) = true →
     recoverable error = false →
     alertManager h' = alertManager h).
Proof.
  intros error Hreach Hcritical h'.
  apply reachable_settled in Hreach.
  subst error h'. unfold ErrorHandler.handle.
  destruct (ErrorNormalizer.normalize failure (nextId h) (h_now w)
              (h_context w)) as [error next].
  cbn [fst] in *.
  destruct (FailureRegistry.recordOccurrence _ _) as [count counts].
  unfold alertGate. rewrite bool_decide_eq_true_2 by done.
  set (sent := send (alertManager h) (criticalAlert error) (h_gate w)).
  assert (alertHistory (after sent) ≠ []) as Hne.
  { apply send_history_nonempty. by left. }
  destruct (recoverable error).
  - pose proof (attempt_history (circuitBreakers h) (after sent) error w)
      as [Hkeep Hhead].
    destruct (attempt _ _ _ _) as [[breakers alerts] recovered];
      simpl in *.
    split; [done|]. split; [|split; [|done]].
    + specialize (Hkeep Hne). destruct (alertHistory alerts); [done|].
      simpl. lia.
    + intros Hlim. apply Hhead. by apply send_records.
  - simpl. split; [done|]. split; [|split].
    + destruct (alertHistory (after sent)); [done|]. simpl. lia.
    + intros Hlim. pose proof (send_records _ _ _ Hlim) as Hhead.
      fold sent in Hhead.
      destruct (alertHistory (after sent)); [done|].
      injection Hhead as ->. apply list_elem_of_here.
    + intros Hlim _. unfold sent. by rewrite (send_suppressed _ _ _ Hlim).
Qed.

End Facade.

Lemma critical_failure_leaves_an_alert_witness :
  let handled :=
    ErrorHandler.handle Examples.reopen Examples.alertOf Examples.rateOf
      Examples.alertOf Examples.handler (Canonical Examples.uncaught)
      (Examples.quiet 1000) in
  ErrorHandler.errorCounts Examples.handler
    !! error_key Examples.uncaught = Some 50%nat
  ∧ (1 ≤ length (AlertManager.alertHistory
                   (ErrorHandler.alertManager (after handled))))%nat
  ∧ Alert.stamp (Examples.alertOf Examples.uncaught) 1000
      ∈ AlertManager.alertHistory
          (ErrorHandler.alertManager (after handled)).
Proof.
  intros handled. split; [vm_compute; reflexivity|].
  destruct (critical_failure_leaves_an_alert Examples.reopen
              Examples.alertOf Examples.rateOf Examples.alertOf
              Examples.parseInt Examples.handler
              (Canonical Examples.uncaught) (Examples.quiet 1000))
    as (_ & Hone & Hfresh & _).
  - by exists Examples.production, [].
  - reflexivity.
  - split; [exact Hone|]. apply Hfresh. vm_compute. reflexivity.
Defined.

(** * Further properties of the alert manager *)

Section Housekeeping.

Import AlertManager.

Implicit Types (m : AlertManager.t) (alert : Alert.t) (w : Ambient).

(** The channels of a constructed manager, one by one. *)
Lemma new_channels parseInt env (channel : AlertChannel) :
  channels (AlertManager.new parseInt env) !! channel =
    match channel with
    | SLACK =>
        if truthy (env !! "SLACK_WEBHOOK_URL") then
          Some {| enabled := true;
                  config := [
                    ("webhookUrl", js_of_env (env !! "SLACK_WEBHOOK_URL"));
                    ("channel",
                      JsString (or_else (env !! "SLACK_CHANNEL") "#alerts"));
                    ("username",
                      JsString (or_else (env !! "SLACK_USERNAME")
                                  "Alert Bot")) ] |}
        else None
    | EMAIL =>
        if truthy (env !! "SMTP_HOST") then
          Some {| enabled := true;
                  config := [
                    ("host", js_of_env (env !! "SMTP_HOST"));
                    ("port", parseInt (or_else (env !! "SMTP_PORT") "587"));
                    ("secure",
                      JsBoolean
                        (bool_decide (env !! "SMTP_SECURE" = Some "true")));
                    ("from", js_of_env (env !! "EMAIL_FROM"));
                    ("to", JsArray match env !! "ALERT_EMAIL_TO" with
                                   | Some s =>
                                       split_on (","%char : Ascii.ascii) s
                                   | None => []
                                   end) ] |}
        else None
    | PAGERDUTY =>
        if truthy (env !! "PAGERDUTY_INTEGRATION_KEY") then
          Some {| enabled := true;
                  config := [
                    ("integrationKey",
                      js_of_env (env !! "PAGERDUTY_INTEGRATION_KEY")) ] |}
        else None
    | WEBHOOK => None
    | CONSOLE =>
        Some {| enabled :=
                  bool_decide (env !! "NODE_ENV" = Some "development");
                config := [] |}
    end.
Proof.
  unfold AlertManager.new, initializeChannels.
  destruct channel;
    destruct (truthy (env !! "SLACK_WEBHOOK_URL"));
    destruct (truthy (env !! "SMTP_HOST"));
    destruct (truthy (env !! "PAGERDUTY_INTEGRATION_KEY"));
    simpl; by simplify_map_eq.
Qed.

(** An adapter that is entered is the adapter of a target channel that
    is configured and enabled. *)
Lemma fanOut_adapter_target m alert targets w c a cfg :
  Adapter c a cfg ∈ concat (snd <$> fanOut m alert targets w) →
  c ∈ targets ∧ channelEnabled m c = true.
Proof.
  rewrite list_elem_of_In. intros Hin.
  apply in_concat in Hin as (l & Hl & Hin).
  apply list_elem_of_In in Hl, Hin.
  apply list_elem_of_fmap in Hl as ([o es] & -> & Hpair).
  apply list_elem_of_lookup in Hpair as [i Hi].
  unfold fanOut in Hi. rewrite list_lookup_imap in Hi.
  destruct (targets !! i) as [channel|] eqn:Htarget; [|done].
  simpl in Hi. injection Hi as Hi. rewrite <- Hi in Hin.
  apply sendToChannel_adapter in Hin as [-> (cc & Hcc & Hon)].
  split; [by eapply list_elem_of_lookup_2|].
  unfold channelEnabled. by rewrite Hcc.
Qed.

Lemma channelEnabled_send m alert w c :
  channelEnabled (after (send m alert w)) c = channelEnabled m c.
Proof. unfold channelEnabled. by rewrite send_channels. Qed.

Lemma send_adapter_target m alert w c a cfg :
  Adapter c a cfg ∈ events (send m alert w) →
  c ∈ resolveChannels alert ∧ channelEnabled m c = true.
Proof.
  destruct (suppressed m alert w) eqn:Hlim.
  - rewrite (send_suppressed _ _ _ Hlim); simpl. intros Hin.
    apply list_elem_of_singleton in Hin. discriminate.
  - rewrite (send_fans_out _ _ _ Hlim). intros Hin.
    apply elem_of_app in Hin as [Hin|Hin].
    + apply fanOut_adapter_target in Hin as [Htarget Hon].
      by rewrite channelEnabled_send in Hon.
    + apply list_elem_of_singleton in Hin. discriminate.
Qed.

Lemma sends_channels m calls : channels (sends m calls) = channels m.
Proof.
  revert m. induction calls as [|[alert w] calls IH]; intros m; [done|].
  change (sends m ((alert, w) :: calls))
    with (sends (after (send m alert w)) calls).
  by rewrite IH, send_channels.
Qed.

(** Whether an alert is suppressed is read off the rate limiter alone. *)
Lemma suppressed_rateLimiter m m' alert w :
  rateLimiter m' = rateLimiter m →
  suppressed m' alert w = suppressed m alert w.
Proof.
  unfold suppressed, isRateLimited. intros ->.
  destruct (rateLimiter m !! _) as [last|]; [|done].
  destruct (last =? 0); [done|].
  by destruct (_ <? rateLimitWindow).
Qed.

(** X1. [clearHistory] empties the history and forgets every rate limit,
    and keeps the channels: right after it [getHistory] returns nothing
    whatever the limit, and the next alert, whichever it is and whenever
    it comes, is not suppressed and is the one alert of the history. *)
Theorem clearHistory_forgets_rate_limits
    (m : AlertManager.t) (alert : Alert.t) (w : Ambient)
    (limit : option Z) :
  let m' := clearHistory m in
  getHistory m' limit = []
  ∧ channels m' = channels m
  ∧ suppressed m' alert w = false
  ∧ alertHistory (after (send m' alert w)) =
      [Alert.stamp alert (new_Date w)].
Proof.
  intros m'.
  assert (suppressed m' alert w = false) as Hlim.
  { unfold suppressed. by rewrite isRateLimited_first. }
  split; [unfold getHistory, slice0; apply take_nil|].
  split; [done|]. split; [done|].
  rewrite send_history by done. done.
Qed.

(** X2. [configureChannel] replaces the configuration of the one channel
    and leaves the other channels, the history and the rate limiter as
    they were. From then on an alert that is not suppressed and resolves
    to the channel has the adapter of the channel entered if the new
    configuration is enabled, and has not if it is disabled. *)
Theorem configureChannel_takes_effect
    (m : AlertManager.t) (channel : AlertChannel) (cfg : ChannelConfig)
    (alert : Alert.t) (w : Ambient) :
  let m' := configureChannel m channel cfg in
  channels m' !! channel = Some cfg
  ∧ (∀ other : AlertChannel,
       other ≠ channel → channels m' !! other = channels m !! other)
  ∧ alertHistory m' = alertHistory m
  ∧ rateLimiter m' = rateLimiter m
  ∧ suppressed m' alert w = suppressed m alert w
  ∧ (suppressed m alert w = false →
     channel ∈ resolveChannels alert →
     if enabled cfg then
       Adapter channel (Alert.stamp alert (new_Date w))
               (adapterConfig channel cfg)
         ∈ events (send m' alert w)
     else
       ∀ (a : Alert.t) (c : list (string * JsValue)),
         Adapter channel a c ∉ events (send m' alert w)).
Proof.
  intros m'.
  assert (channels m' !! channel = Some cfg) as Hcfg
    by apply lookup_insert_eq.
  split; [done|].
  split; [intros other Hne; by apply lookup_insert_ne|].
  split; [reflexivity|]. split; [reflexivity|].
  assert (suppressed m' alert w = suppressed m alert w) as Hsame
    by by apply suppressed_rateLimiter.
  split; [done|].
  intros Hlim Htarget. rewrite <- Hsame in Hlim.
  destruct (enabled cfg) eqn:Hon.
  - rewrite (send_fans_out _ _ _ Hlim).
    apply list_elem_of_lookup in Htarget as [i Hi].
    apply elem_of_app; left.
    eapply fanOut_events; [exact Hi|].
    apply sendToChannel_enters; [|done].
    by rewrite send_channels.
  - intros a c Hin.
    apply send_adapter_target in Hin as [_ Henabled].
    unfold channelEnabled in Henabled. rewrite Hcfg in Henabled.
    congruence.
Qed.

Lemma configureChannel_takes_effect_witness :
  let m :=
    configureChannel
      (AlertManager.new Examples.parseInt Examples.production)
      WEBHOOK Examples.hook in
  Adapter WEBHOOK (Alert.stamp Examples.hooked 1000)
          [("url", JsString "https://ops.example/hook")]
    ∈ events (send m Examples.hooked (Examples.calm 1000)).
Proof.
  intros m.
  destruct (configureChannel_takes_effect
              (AlertManager.new Examples.parseInt Examples.production)
              WEBHOOK Examples.hook Examples.hooked (Examples.calm 1000))
    as (_ & _ & _ & _ & _ & Hsend).
  apply Hsend; [vm_compute; reflexivity|apply list_elem_of_here].
Defined.

(** X3. The constructor never configures the webhook channel, whatever
    the environment holds. Until [configureChannel] does, an alert sent
    to the webhook channel never has the webhook adapter entered,
    whatever was sent before. *)
Theorem webhook_is_never_configured_from_the_environment
    (parseInt : string → JsValue) (env : ProcessEnv)
    (calls : list (Alert.t * Ambient)) (alert : Alert.t) (w : Ambient) :
  let m := sends (AlertManager.new parseInt env) calls in
  channels m !! WEBHOOK = None
  ∧ (∀ (a : Alert.t) (c : list (string * JsValue)),
       Adapter WEBHOOK a c ∉ events (send m alert w)).
Proof.
  intros m.
  assert (channels m !! WEBHOOK = None) as Hnone.
  { unfold m. rewrite sends_channels. apply (new_channels _ _ WEBHOOK). }
  split; [done|]. intros a c Hin.
  apply send_adapter_target in Hin as [_ Hon].
  unfold channelEnabled in Hon. by rewrite Hnone in Hon.
Qed.

(** X4. There is no fall-back to the console. In an environment that
    sets none of the slack webhook, the SMTP host and the PagerDuty key,
    a critical, high or warning alert that leaves its channels to the
    severity is recorded in the history of the constructed manager, yet
    no adapter at all is entered for it, in development as elsewhere. *)
Theorem unconfigured_channels_are_not_replaced
    (parseInt : string → JsValue) (env : ProcessEnv)
    (alert : Alert.t) (w : Ambient) :
  truthy (env !! "SLACK_WEBHOOK_URL") = false →
  truthy (env !! "SMTP_HOST") = false →
  truthy (env !! "PAGERDUTY_INTEGRATION_KEY") = false →
  Alert.channels alert = None →
  Alert.severity alert = "critical" ∨ Alert.severity alert = "high"
    ∨ Alert.severity alert = "warning" →
  let m := AlertManager.new parseInt env in
  alertHistory (after (send m alert w)) = [Alert.stamp alert (new_Date w)]
  ∧ (∀ (c : AlertChannel) (a : Alert.t) (k : list (string * JsValue)),
       Adapter c a k ∉ events (send m alert w)).
Proof.
  intros Hslack Hsmtp Hpager Hnone Hseverity m. split.
  - rewrite send_history.
    + unfold addToHistory, set_alertHistory, m. cbn [alertHistory].
      by rewrite new_alertHistory.
    + unfold suppressed. rewrite isRateLimited_first; [done|].
      unfold m. by rewrite new_rateLimiter.
  - intros c a k Hin.
    apply send_adapter_target in Hin as [Htarget Hon].
    unfold channelEnabled, m in Hon.
    rewrite new_channels, Hslack, Hsmtp, Hpager in Hon.
    unfold resolveChannels, getDefaultChannels in Htarget.
    rewrite Hnone in Htarget.
    destruct Hseverity as [Hs|[Hs|Hs]]; rewrite Hs in Htarget;
      simpl in Htarget;
      repeat (apply elem_of_cons in Htarget as [->|Htarget];
              [done|]);
      by apply elem_of_nil in Htarget.
Qed.

Lemma unconfigured_channels_are_not_replaced_witness :
  let sent :=
    send (AlertManager.new Examples.parseInt Examples.development)
         Examples.breach (Examples.calm 1000) in
  alertHistory (after sent) = [Alert.stamp Examples.breach 1000]
  ∧ Adapter CONSOLE (Alert.stamp Examples.breach 1000) [] ∉ events sent.
Proof.
  intros sent.
  destruct (unconfigured_channels_are_not_replaced Examples.parseInt
              Examples.development Examples.breach (Examples.calm 1000))
    as [Hrecorded Hsilent];
    try (vm_compute; reflexivity).
  - by left.
  - split; [exact Hrecorded|apply Hsilent].
Defined.

(** X5. The environment decides the channels of a constructed manager:
    slack, email and PagerDuty are configured exactly when the slack
    webhook, the SMTP host and the PagerDuty key are set to a string
    that is not empty, and a channel configured this way is enabled;
    the console channel is configured always. *)
Theorem environment_decides_the_channels
    (parseInt : string → JsValue) (env : ProcessEnv) :
  let m := AlertManager.new parseInt env in
  let set (name : string) :=
    ∃ v : string, env !! name = Some v ∧ v ≠ "" in
  (is_Some (channels m !! SLACK) ↔ set "SLACK_WEBHOOK_URL")
  ∧ (is_Some (channels m !! EMAIL) ↔ set "SMTP_HOST")
  ∧ (is_Some (channels m !! PAGERDUTY) ↔ set "PAGERDUTY_INTEGRATION_KEY")
  ∧ is_Some (channels m !! CONSOLE)
  ∧ (∀ (channel : AlertChannel) (cfg : ChannelConfig),
       channel ≠ CONSOLE →
       channels m !! channel = Some cfg →
       enabled cfg = true).
Proof.
  intros m set.
  assert (∀ name, truthy (env !! name) = true ↔ set name) as Htruthy.
  { intros name. unfold truthy, set.
    destruct (env !! name) as [v|]; simpl.
    - destruct (String.eqb_spec v ""); simpl.
      + split; [done|]. intros (v' & [= <-] & Hne). done.
      + split; [|done]. intros _. by exists v.
    - split; [done|]. by intros (v & ? & _). }
  unfold m. repeat split.
  - rewrite new_channels, <- Htruthy.
    destruct (truthy _); [done|]. by intros [? ?].
  - rewrite new_channels, <- Htruthy.
    by destruct (truthy _).
  - rewrite new_channels, <- Htruthy.
    destruct (truthy _); [done|]. by intros [? ?].
  - rewrite new_channels, <- Htruthy.
    by destruct (truthy _).
  - rewrite new_channels, <- Htruthy.
    destruct (truthy _); [done|]. by intros [? ?].
  - rewrite new_channels, <- Htruthy.
    by destruct (truthy _).
  - by rewrite new_channels.
  - intros channel cfg Hne. rewrite new_channels.
    destruct channel; try done;
      destruct (truthy _); try done; by intros [= <-].
Qed.

Lemma environment_decides_the_channels_witness :
  let m := AlertManager.new Examples.parseInt Examples.staffed in
  is_Some (channels m !! SLACK)
  ∧ channels m !! EMAIL = None
  ∧ enabled <$> channels m !! SLACK = Some true.
Proof.
  intros m.
  destruct (environment_decides_the_channels Examples.parseInt
              Examples.staffed) as (Hslack & _ & _ & _ & Hon).
  split; [apply Hslack; by eexists|].
  split; [vm_compute; reflexivity|].
  destruct (channels m !! SLACK) as [cfg|] eqn:Hcfg;
    [|vm_compute in Hcfg; discriminate].
  simpl. f_equal. by apply (Hon SLACK cfg).
Defined.

End Housekeeping.

(** ** More on the rate limiter *)

Section RateLimits.

Import AlertManager.

Implicit Types (m : AlertManager.t) (alert : Alert.t) (w : Ambient).

(** Whether an alert is suppressed is read off the entry of its key. *)
Lemma suppressed_entry m m' alert w :
  rateLimiter m' !! key alert = rateLimiter m !! key alert →
  suppressed m' alert w = suppressed m alert w.
Proof.
  unfold suppressed, isRateLimited. rewrite key_stamp. intros ->.
  destruct (rateLimiter m !! _) as [last|]; [|done].
  destruct (last =? 0); [done|].
  by destruct (_ <? rateLimitWindow).
Qed.

(** What a call does to the rate limiter: nothing, or one insertion at
    the key of the alert. *)
Lemma send_rateLimiter m alert w :
  rateLimiter (after (send m alert w)) = rateLimiter m
  ∨ ∃ t, rateLimiter (after (send m alert w)) =
           <[key alert := t]> (rateLimiter m).
Proof.
  destruct (suppressed m alert w) eqn:Hlim.
  - left. by rewrite (send_suppressed _ _ _ Hlim).
  - right. rewrite (send_dispatched _ _ _ Hlim); simpl.
    destruct (isRateLimited_false _ _ _ _ Hlim) as [t ->]. by exists t.
Qed.

(** X6. A call of [send] touches the rate limiter at the key of its
    alert only: the entry of every other key is as it was. And after the
    call, suppressed or not, the key of the alert has an entry. *)
Theorem send_touches_one_rate_limit
    (m : AlertManager.t) (alert : Alert.t) (w : Ambient) :
  (∀ other : string,
     other ≠ key alert →
     rateLimiter (after (send m alert w)) !! other =
       rateLimiter m !! other)
  ∧ is_Some (rateLimiter (after (send m alert w)) !! key alert).
Proof.
  split.
  - intros other Hne.
    destruct (send_rateLimiter m alert w) as [->|[t ->]]; [done|].
    by rewrite lookup_insert_ne.
  - destruct (suppressed m alert w) eqn:Hlim.
    + rewrite (send_suppressed _ _ _ Hlim); simpl.
      revert Hlim. unfold suppressed, isRateLimited. rewrite key_stamp.
      by destruct (rateLimiter m !! key alert).
    + destruct (send_rateLimiter_key _ _ _ Hlim) as [->| ->]; by eexists.
Qed.

Lemma send_touches_one_rate_limit_witness :
  let m :=
    after (send (AlertManager.new Examples.parseInt Examples.development)
                Examples.notice (Examples.calm 1000)) in
  rateLimiter (after (send m Examples.breach (Examples.calm 2000)))
    !! "Disk usage:info" = Some 1000.
Proof.
  intros m.
  destruct (send_touches_one_rate_limit m Examples.breach
              (Examples.calm 2000)) as [Hframe _].
  rewrite Hframe; [vm_compute; reflexivity|vm_compute; congruence].
Defined.

(** A string with a colon in it is not free of colons. *)
Lemma colon_free_append s t : colon_free (s +:+ ":" +:+ t) = false.
Proof.
  induction s as [|c s IH]; simpl; [done|].
  rewrite IH. apply andb_false_r.
Qed.

Lemma append_colon_inj s1 s2 t1 t2 :
  colon_free t1 = true →
  colon_free t2 = true →
  s1 +:+ ":" +:+ t1 = s2 +:+ ":" +:+ t2 →
  s1 = s2 ∧ t1 = t2.
Proof.
  intros Ht1 Ht2. revert s2.
  induction s1 as [|c1 s1 IH]; intros [|c2 s2]; simpl; intros Heq.
  - by simplify_eq/=.
  - simplify_eq/=. change ("" +:+ t1) with t1 in H. subst t1.
    by rewrite colon_free_append in Ht1.
  - simplify_eq/=. change ("" +:+ t2) with t2 in H. subst t2.
    by rewrite colon_free_append in Ht2.
  - simplify_eq/=. by destruct (IH _ H) as [-> ->].
Qed.

(** X7. Alerts whose severities hold no colon, as the four of the enum
    do, share a key of the rate limiter only if they have the same title
    and the same severity. So sending an alert never changes whether an
    alert of another title or another severity is suppressed. *)
Theorem other_alerts_are_not_limited
    (m : AlertManager.t) (alert other : Alert.t) (w w' : Ambient) :
  colon_free (Alert.severity alert) = true →
  colon_free (Alert.severity other) = true →
  (key other = key alert →
   Alert.title other = Alert.title alert
   ∧ Alert.severity other = Alert.severity alert)
  ∧ (Alert.title other ≠ Alert.title alert
     ∨ Alert.severity other ≠ Alert.severity alert →
     suppressed (after (send m alert w)) other w' = suppressed m other w').
Proof.
  intros Hfree Hfree'.
  assert (key other = key alert →
          Alert.title other = Alert.title alert
          ∧ Alert.severity other = Alert.severity alert) as Hinj
    by by apply append_colon_inj.
  split; [done|]. intros Hdiff.
  apply suppressed_entry.
  destruct (send_rateLimiter m alert w) as [->|[t ->]]; [done|].
  apply lookup_insert_ne. intros Hkey. symmetry in Hkey.
  destruct (Hinj Hkey) as [? ?]. by destruct Hdiff.
Qed.

Lemma other_alerts_are_not_limited_witness :
  let m := AlertManager.new Examples.parseInt Examples.development in
  suppressed (after (send m Examples.notice (Examples.calm 1000)))
    Examples.breach (Examples.calm 1001) = false.
Proof.
  intros m.
  destruct (other_alerts_are_not_limited m Examples.notice Examples.breach
              (Examples.calm 1000) (Examples.calm 1001) eq_refl eq_refl)
    as [_ Hfree].
  rewrite Hfree; [vm_compute; reflexivity|].
  left. vm_compute. congruence.
Defined.

(** X8. The times the rate limiter records for one key are at least a
    window apart: when it holds a time other than 0 for the key of an
    alert and the alert is let through, the time it holds afterwards is
    at least 300000 ms later, the clock not running backwards between
    the two readings of the call. *)
Theorem recorded_times_are_a_window_apart
    (m : AlertManager.t) (alert : Alert.t) (w : Ambient) (last : Z) :
  rateLimiter m !! key alert = Some last →
  last ≠ 0 →
  Date_now w ≤ Date_now' w →
  suppressed m alert w = false →
  ∃ t : Z,
    rateLimiter (after (send m alert w)) !! key alert = Some t
    ∧ last + rateLimitWindow ≤ t.
Proof.
  intros Hlast Hclock Hforward Hlim.
  exists (Date_now' w).
  rewrite (send_dispatched _ _ _ Hlim); simpl.
  revert Hlim. unfold suppressed, isRateLimited.
  rewrite key_stamp, Hlast.
  destruct (Z.eqb_spec last 0) as [|_]; [done|].
  destruct (Z.ltb_spec (Date_now w - last) rateLimitWindow) as [|Hge];
    [done|].
  intros _; simpl. rewrite lookup_insert_eq. split; [done|lia].
Qed.

Lemma recorded_times_are_a_window_apart_witness :
  let m :=
    after (send (AlertManager.new Examples.parseInt Examples.development)
                Examples.notice (Examples.calm 1000)) in
  ∃ t : Z,
    rateLimiter (after (send m Examples.notice (Examples.calm 400000)))
      !! "Disk usage:info" = Some t
    ∧ 301000 ≤ t.
Proof.
  intros m.
  apply (recorded_times_are_a_window_apart m Examples.notice
           (Examples.calm 400000) 1000);
    try (vm_compute; reflexivity); vm_compute; congruence.
Defined.

(** X9. A recorded time of 0 does not limit: [!lastSent] holds for it as
    for a missing entry, so the alert is let through whatever the clock
    reads, and the first reading of the clock is recorded. *)
Theorem time_zero_is_no_rate_limit
    (m : AlertManager.t) (alert : Alert.t) (w : Ambient) :
  rateLimiter m !! key alert = Some 0 →
  suppressed m alert w = false
  ∧ rateLimiter (after (send m alert w)) !! key alert = Some (Date_now w)
  ∧ head (alertHistory (after (send m alert w))) =
      Some (Alert.stamp alert (new_Date w)).
Proof.
  intros Hzero.
  assert (suppressed m alert w = false) as Hlim.
  { unfold suppressed, isRateLimited. by rewrite key_stamp, Hzero. }
  split; [done|]. split; [|by apply send_records].
  rewrite (send_dispatched _ _ _ Hlim); simpl.
  unfold isRateLimited. rewrite key_stamp, Hzero; simpl.
  apply lookup_insert_eq.
Qed.

Lemma time_zero_is_no_rate_limit_witness :
  let m :=
    after (send (AlertManager.new Examples.parseInt Examples.development)
                Examples.notice (Examples.calm 0)) in
  rateLimiter m !! "Disk usage:info" = Some 0
  ∧ suppressed m Examples.notice (Examples.calm 1) = false.
Proof.
  intros m.
  assert (rateLimiter m !! key Examples.notice = Some 0) as Hzero
    by (vm_compute; reflexivity).
  split; [exact Hzero|].
  exact (proj1 (time_zero_is_no_rate_limit m Examples.notice
                  (Examples.calm 1) Hzero)).
Defined.

(** Calls of one key inside the window of a recorded time change
    nothing. *)
Lemma sends_inside_window m alert last calls :
  rateLimiter m !! key alert = Some last →
  last ≠ 0 →
  Forall (λ call : Alert.t * Ambient,
            key call.1 = key alert
            ∧ Date_now call.2 - last < rateLimitWindow) calls →
  recorded m calls = [] ∧ sends m calls = m.
Proof.
  intros Hlast Hclock Hcalls.
  induction Hcalls as [|[a w] calls [Hkey Hwithin] _ IH]; [done|].
  simpl in Hkey, Hwithin.
  assert (suppressed m a w = true) as Hlim.
  { unfold suppressed.
    rewrite (isRateLimited_within _ _ _ _ last); try done.
    by rewrite key_stamp, Hkey. }
  change (sends m ((a, w) :: calls))
    with (sends (after (send m a w)) calls).
  simpl recorded. rewrite Hlim, (send_suppressed _ _ _ Hlim). done.
Qed.

(** X10. Of a burst only the first alert gets through: when the key of
    an alert has no entry, the alert is sent at a time other than 0, and
    any number of alerts of the same key follow within 300000 ms of that
    time, the first alert is the only one recorded, and the manager
    after the burst is the manager after the first alert. *)
Theorem burst_is_recorded_once
    (m : AlertManager.t) (alert : Alert.t) (w : Ambient)
    (calls : list (Alert.t * Ambient)) :
  rateLimiter m !! key alert = None →
  Date_now w ≠ 0 →
  Forall (λ call : Alert.t * Ambient,
            key call.1 = key alert
            ∧ Date_now call.2 - Date_now w < rateLimitWindow) calls →
  recorded m ((alert, w) :: calls) = [Alert.stamp alert (new_Date w)]
  ∧ sends m ((alert, w) :: calls) = after (send m alert w).
Proof.
  intros Hnone Hclock Hcalls.
  assert (suppressed m alert w = false) as Hlim.
  { unfold suppressed. by rewrite isRateLimited_first. }
  assert (rateLimiter (after (send m alert w)) !! key alert =
            Some (Date_now w)) as Hlast.
  { rewrite (send_dispatched _ _ _ Hlim); simpl.
    rewrite isRateLimited_first by done. simpl.
    rewrite key_stamp. apply lookup_insert_eq. }
  destruct (sends_inside_window _ _ _ _ Hlast Hclock Hcalls)
    as [Hrecorded Hsends].
  change (sends m ((alert, w) :: calls))
    with (sends (after (send m alert w)) calls).
  simpl recorded. rewrite Hlim, Hrecorded. done.
Qed.

Lemma burst_is_recorded_once_witness :
  let m := AlertManager.new Examples.parseInt Examples.development in
  recorded m
    [(Examples.notice, Examples.calm 1000);
     (Examples.notice, Examples.calm 1001);
     (Examples.notice, Examples.calm 300999)] =
    [Alert.stamp Examples.notice 1000].
Proof.
  intros m.
  apply (burst_is_recorded_once m Examples.notice (Examples.calm 1000)
           [(Examples.notice, Examples.calm 1001);
            (Examples.notice, Examples.calm 300999)]).
  - vm_compute. reflexivity.
  - vm_compute. congruence.
  - repeat constructor; vm_compute; reflexivity.
Defined.

End RateLimits.

(** ** More on the history *)

Section Histories.

Import AlertManager.

Implicit Types (m : AlertManager.t) (alert : Alert.t) (w : Ambient).

(** What holds of every constructed manager and is kept by every
    operation holds of every manager the process can reach. *)
Lemma reachable_invariant parseInt (P : AlertManager.t → Prop) :
  (∀ env, P (AlertManager.new parseInt env)) →
  (∀ m op, P m → P (step m op)) →
  ∀ m, reachable parseInt m → P m.
Proof.
  intros Hnew Hstep m (env & ops & ->).
  induction ops as [|op ops IH] using rev_ind; [apply Hnew|].
  rewrite fold_left_app. by apply Hstep.
Qed.

Lemma addToHistory_subseteq m alert :
  alertHistory (addToHistory m alert) ⊆ alert :: alertHistory m.
Proof.
  unfold addToHistory, set_alertHistory. cbn [alertHistory].
  destruct (_ <? _)%nat; [|done].
  rewrite removelast_take. apply subseteq_take.
Qed.

(** What a step leaves in the history was there, or is the stamped alert
    of a send that is not suppressed. *)
Lemma step_history m op a :
  a ∈ alertHistory (step m op) →
  a ∈ alertHistory m
  ∨ ∃ alert w, op = OpSend alert w
               ∧ suppressed m alert w = false
               ∧ a = Alert.stamp alert (new_Date w).
Proof.
  destruct op as [alert w| |channel cfg]; simpl.
  - destruct (suppressed m alert w) eqn:Hlim.
    + rewrite (send_suppressed _ _ _ Hlim). by left.
    + rewrite send_history by done. intros Hin.
      apply addToHistory_subseteq, elem_of_cons in Hin as [->|Hin].
      * right. by exists alert, w.
      * by left.
  - intros Hin. by apply elem_of_nil in Hin.
  - by left.
Qed.

(** X11. Every alert of the history carries a time stamp, in every
    manager the process can reach. The time stamp is the alert's own
    when it came with one: such an alert is recorded as it was sent, and
    the clock is not consulted for it. *)
Theorem history_alerts_are_stamped :
  (∀ (parseInt : string → JsValue) (m : AlertManager.t) (a : Alert.t),
     reachable parseInt m →
     a ∈ alertHistory m →
     is_Some (Alert.timestamp a))
  ∧ (∀ (m : AlertManager.t) (alert : Alert.t) (w : Ambient) (t : Z),
       Alert.timestamp alert = Some t →
       suppressed m alert w = false →
       head (alertHistory (after (send m alert w))) = Some alert).
Proof.
  split.
  - intros parseInt m a Hreach. revert a.
    apply (reachable_invariant parseInt
             (λ m, ∀ a, a ∈ alertHistory m → is_Some (Alert.timestamp a)));
      [| |done].
    + intros env a. rewrite new_alertHistory. intros Hin.
      by apply elem_of_nil in Hin.
    + intros m' op IH a Hin.
      apply step_history in Hin as [Hin|(alert & w & _ & _ & ->)];
        [by apply IH|by eexists].
  - intros m alert w t Hstamp Hlim.
    rewrite send_records by done. f_equal.
    destruct alert; simpl in *. by subst.
Qed.

Lemma history_alerts_are_stamped_witness :
  let m := AlertManager.new Examples.parseInt Examples.development in
  head (alertHistory (after (send m Examples.muted (Examples.calm 1000)))) =
    Some Examples.muted
  ∧ Alert.timestamp Examples.muted = Some 777.
Proof.
  intros m. split; [|reflexivity].
  destruct history_alerts_are_stamped as [_ Hkept].
  apply (Hkept m Examples.muted (Examples.calm 1000) 777);
    vm_compute; reflexivity.
Defined.

(** X12. The key of every alert of the history has an entry in the rate
    limiter, in every manager the process can reach: no alert is in the
    history without its key being rate limited from some time on. *)
Theorem history_keys_are_rate_limited
    (parseInt : string → JsValue) (m : AlertManager.t) (a : Alert.t) :
  reachable parseInt m →
  a ∈ alertHistory m →
  is_Some (rateLimiter m !! key a).
Proof.
  intros Hreach. revert a.
  apply (reachable_invariant parseInt
           (λ m, ∀ a, a ∈ alertHistory m → is_Some (rateLimiter m !! key a)));
    [| |done].
  - intros env a. rewrite new_alertHistory. intros Hin.
    by apply elem_of_nil in Hin.
  - intros m' op IH a Hin.
    destruct op as [alert w| |channel cfg].
    + apply step_history in Hin as [Hin|(alert' & w' & Hop & Hlim & ->)].
      * simpl.
        destruct (send_rateLimiter m' alert w) as [->|[t ->]];
          [by apply IH|].
        apply lookup_insert_is_Some'. right. by apply IH.
      * injection Hop as <- <-. simpl. rewrite key_stamp.
        destruct (send_rateLimiter_key _ _ _ Hlim) as [->| ->];
          by eexists.
    + simpl in Hin. by apply elem_of_nil in Hin.
    + by apply IH.
Qed.

Lemma history_keys_are_rate_limited_witness :
  let m :=
    after (send (AlertManager.new Examples.parseInt Examples.development)
                Examples.notice (Examples.calm 1000)) in
  is_Some (rateLimiter m !! "Disk usage:info").
Proof.
  intros m.
  apply (history_keys_are_rate_limited Examples.parseInt m
           (Alert.stamp Examples.notice 1000)).
  - exists Examples.development,
      [OpSend Examples.notice (Examples.calm 1000)].
    reflexivity.
  - vm_compute. apply list_elem_of_here.
Defined.

(** X13. On a manager the process can reach, a limit of 100 or more
    makes [getHistory] return the whole history. *)
Theorem getHistory_returns_all
    (parseInt : string → JsValue) (m : AlertManager.t) (n : Z) :
  reachable parseInt m →
  100 ≤ n →
  getHistory m (Some n) = alertHistory m.
Proof.
  intros Hreach Hn.
  apply reachable_history_bound in Hreach. unfold maxHistorySize in Hreach.
  unfold getHistory; simpl. rewrite slice0_nonneg by lia.
  apply take_ge. lia.
Qed.

Lemma getHistory_returns_all_witness :
  let m :=
    after (send (AlertManager.new Examples.parseInt Examples.development)
                Examples.notice (Examples.calm 1000)) in
  getHistory m (Some 100) = [Alert.stamp Examples.notice 1000].
Proof.
  intros m.
  rewrite (getHistory_returns_all Examples.parseInt m 100); [done| |lia].
  exists Examples.development,
    [OpSend Examples.notice (Examples.calm 1000)].
  reflexivity.
Defined.

(** X14. A negative limit [n] makes [getHistory] leave out the oldest
    [-n] alerts: it returns the history without its last [-n] entries,
    and nothing when the history has no more than that. *)
Theorem getHistory_negative_limit_drops_oldest
    (m : AlertManager.t) (n : Z) :
  n < 0 →
  getHistory m (Some n) =
    take (length (alertHistory m) - Z.to_nat (- n)) (alertHistory m)
  ∧ length (getHistory m (Some n)) =
      (length (alertHistory m) - Z.to_nat (- n))%nat.
Proof.
  intros Hn.
  assert (getHistory m (Some n) =
            take (length (alertHistory m) - Z.to_nat (- n))
                 (alertHistory m)) as Htake.
  { unfold getHistory, slice0; simpl.
    destruct (Z.ltb_spec n 0) as [_|]; [|lia].
    f_equal. lia. }
  split; [done|]. rewrite Htake, length_take. lia.
Qed.

Lemma getHistory_negative_limit_drops_oldest_witness :
  getHistory Examples.full (Some (-98)) = [Examples.outage; Examples.outage]
  ∧ getHistory Examples.pair (Some (-5)) = [].
Proof.
  split.
  - rewrite (proj1 (getHistory_negative_limit_drops_oldest
                      Examples.full (-98) eq_refl)).
    reflexivity.
  - rewrite (proj1 (getHistory_negative_limit_drops_oldest
                      Examples.pair (-5) eq_refl)).
    reflexivity.
Defined.

End Histories.

(** ** More on the fan-out *)

Section FanOutCounts.

Import AlertManager.

Implicit Types (m : AlertManager.t) (alert : Alert.t) (w : Ambient).

(** How many adapters one [sendToChannel] enters, and how many errors
    it logs. *)
Lemma sendToChannel_adapter_count m alert channel o :
  length (List.filter isAdapterCall (snd (sendToChannel m alert channel o))) =
    if channelEnabled m channel then 1%nat else 0%nat.
Proof.
  unfold sendToChannel, channelEnabled.
  destruct (channels m !! channel) as [cfg|]; [|done].
  destruct (enabled cfg); [|done]. by destruct channel, o.
Qed.

Lemma sendToChannel_error_count m alert channel o :
  length (List.filter isErrorLog (snd (sendToChannel m alert channel o))) =
    match o with
    | Throws _ => if channelEnabled m channel then 1%nat else 0%nat
    | Returns => 0%nat
    end.
Proof.
  unfold sendToChannel, channelEnabled.
  destruct (channels m !! channel) as [cfg|]; [|by destruct o].
  destruct (enabled cfg); [|by destruct o]. by destruct channel, o.
Qed.

Lemma fanOut_adapter_count m alert targets w :
  length (List.filter isAdapterCall
            (concat (snd <$> fanOut m alert targets w))) =
    length (List.filter (channelEnabled m) targets).
Proof.
  unfold fanOut. generalize (adapter w) as g.
  induction targets as [|channel targets IH]; intros g; [done|].
  rewrite imap_cons, fmap_cons. cbn [concat].
  rewrite List.filter_app, length_app, sendToChannel_adapter_count.
  pose proof (IH (g ∘ S)) as IH'. unfold compose in IH' |- *.
  cbv beta in IH' |- *. rewrite IH'. simpl.
  by destruct (channelEnabled m channel).
Qed.

Lemma fanOut_error_count m alert targets w :
  (∀ i, adapter w i ≠ Returns) ∨ (∀ i, adapter w i = Returns) →
  length (List.filter isErrorLog
            (concat (snd <$> fanOut m alert targets w))) =
    match adapter w 0 with
    | Throws _ => length (List.filter (channelEnabled m) targets)
    | Returns => 0%nat
    end.
Proof.
  unfold fanOut. generalize (adapter w) as g.
  induction targets as [|channel targets IH]; intros g Hg.
  - by destruct (g 0%nat).
  - rewrite imap_cons, fmap_cons. cbn [concat].
    rewrite List.filter_app, length_app, sendToChannel_error_count.
    assert ((∀ i, (g ∘ S) i ≠ Returns) ∨ (∀ i, (g ∘ S) i = Returns))
      as Hg' by (destruct Hg as [Hg|Hg]; [left|right]; intros i; apply Hg).
    pose proof (IH (g ∘ S) Hg') as IH'. unfold compose in IH' |- *.
    cbv beta in IH' |- *. rewrite IH'.
    destruct Hg as [Hg|Hg].
    + pose proof (Hg 0%nat). pose proof (Hg 1%nat). simpl.
      destruct (g 0%nat), (g 1%nat); try done.
      by destruct (channelEnabled m channel).
    + simpl. by rewrite !Hg.
Qed.

(** X15. An alert with an explicit, empty list of channels that is not
    suppressed is recorded in the history, and the severity's channels
    do not stand in for the empty list: no channel is tried, and the
    one event of the call is the log line that the alert was sent. *)
Theorem empty_channel_list_is_respected
    (m : AlertManager.t) (alert : Alert.t) (w : Ambient) :
  Alert.channels alert = Some [] →
  suppressed m alert w = false →
  events (send m alert w) = [Log Info "Alert sent"]
  ∧ head (alertHistory (after (send m alert w))) =
      Some (Alert.stamp alert (new_Date w)).
Proof.
  intros Hempty Hlim. split; [|by apply send_records].
  rewrite (send_fans_out _ _ _ Hlim).
  unfold resolveChannels. simpl. by rewrite Hempty.
Qed.

Lemma empty_channel_list_is_respected_witness :
  events (send (AlertManager.new Examples.parseInt Examples.staffed)
               Examples.muted (Examples.calm 1000)) =
    [Log Info "Alert sent"].
Proof.
  apply (empty_channel_list_is_respected
           (AlertManager.new Examples.parseInt Examples.staffed)
           Examples.muted (Examples.calm 1000));
    vm_compute; reflexivity.
Defined.

(** X16. A send that is not suppressed enters one adapter for each
    occurrence of a channel in the resolved list that is configured and
    enabled, no more and no fewer, whatever the adapters do: a channel
    listed twice is sent to twice, and a channel that is missing or
    disabled is passed over. *)
Theorem one_adapter_per_enabled_channel
    (m : AlertManager.t) (alert : Alert.t) (w : Ambient) :
  suppressed m alert w = false →
  length (List.filter isAdapterCall (events (send m alert w))) =
    length (List.filter (channelEnabled m) (resolveChannels alert)).
Proof.
  intros Hlim. rewrite (send_fans_out _ _ _ Hlim).
  rewrite List.filter_app, length_app, fanOut_adapter_count. simpl.
  rewrite Nat.add_0_r. f_equal.
  apply List.filter_ext. intros c. apply channelEnabled_send.
Qed.

Lemma one_adapter_per_enabled_channel_witness :
  length (List.filter isAdapterCall
            (events
               (send (AlertManager.new Examples.parseInt Examples.staffed)
                     Examples.outage (Examples.firstThrows 1000)))) =
    2%nat.
Proof.
  rewrite (one_adapter_per_enabled_channel
             (AlertManager.new Examples.parseInt Examples.staffed)
             Examples.outage (Examples.firstThrows 1000));
    vm_compute; reflexivity.
Defined.

(** X17. A send that is not suppressed ends with the log line that the
    alert was sent, whatever the adapters do. When every adapter throws,
    there is one error log for each adapter entered, and the alert is
    still logged as sent; when every adapter returns, no error is
    logged. *)
Theorem alert_is_logged_as_sent_whatever_fails
    (m : AlertManager.t) (alert : Alert.t) (w : Ambient) :
  suppressed m alert w = false →
  last (events (send m alert w)) = Some (Log Info "Alert sent")
  ∧ ((∀ i, adapter w i ≠ Returns) →
     length (List.filter isErrorLog (events (send m alert w))) =
       length (List.filter isAdapterCall (events (send m alert w))))
  ∧ ((∀ i, adapter w i = Returns) →
     List.filter isErrorLog (events (send m alert w)) = []).
Proof.
  intros Hlim.
  assert (∀ l, length (List.filter isErrorLog (l ++ [Log Info "Alert sent"]))
               = length (List.filter isErrorLog l)) as Htail.
  { intros l. rewrite List.filter_app, length_app. simpl. lia. }
  split; [|split].
  - rewrite (send_fans_out _ _ _ Hlim). apply last_snoc.
  - intros Hthrow.
    rewrite (send_fans_out _ _ _ Hlim), Htail.
    rewrite List.filter_app, length_app, fanOut_adapter_count.
    rewrite fanOut_error_count by by left.
    pose proof (Hthrow 0%nat). destruct (adapter w 0); [done|].
    simpl. lia.
  - intros Hreturn. apply length_zero_iff_nil.
    rewrite (send_fans_out _ _ _ Hlim), Htail.
    rewrite fanOut_error_count by by right.
    by rewrite Hreturn.
Qed.

Lemma alert_is_logged_as_sent_whatever_fails_witness :
  let sent :=
    send (AlertManager.new Examples.parseInt Examples.staffed)
         Examples.outage (Examples.stormy 1000) in
  last (events sent) = Some (Log Info "Alert sent")
  ∧ length (List.filter isErrorLog (events sent)) = 2%nat.
Proof.
  intros sent.
  destruct (alert_is_logged_as_sent_whatever_fails
              (AlertManager.new Examples.parseInt Examples.staffed)
              Examples.outage (Examples.stormy 1000))
    as (Hlast & Hthrow & _); [vm_compute; reflexivity|].
  split; [exact Hlast|]. unfold sent.
  rewrite Hthrow; [vm_compute; reflexivity|done].
Defined.

End FanOutCounts.

(** ** Two sends of one key, and a third after the window *)

Section SendTwice3.

Import AlertManager.

Implicit Types (m : AlertManager.t) (alert : Alert.t) (w : Ambient).

(** A send that is not suppressed enters the adapter of every resolved
    channel that is configured and enabled, with the stamped alert. *)
Lemma send_enters_adapter m alert w channel cfg :
  suppressed m alert w = false →
  channel ∈ resolveChannels alert →
  channels m !! channel = Some cfg →
  enabled cfg = true →
  Adapter channel (Alert.stamp alert (new_Date w))
          (adapterConfig channel cfg)
    ∈ events (send m alert w).
Proof.
  intros Hlim Htarget Hcfg Hon.
  rewrite (send_fans_out _ _ _ Hlim).
  apply list_elem_of_lookup in Htarget as [i Hi].
  apply elem_of_app; left.
  eapply fanOut_events; [exact Hi|].
  apply sendToChannel_enters; [|done]. by rewrite send_channels.
Qed.

(** It enters as many adapters as the resolved list has occurrences of
    channels that are configured and enabled. *)
Lemma send_adapter_count m alert w :
  suppressed m alert w = false →
  length (List.filter isAdapterCall (events (send m alert w))) =
    length (List.filter (channelEnabled m) (resolveChannels alert)).
Proof.
  intros Hlim. rewrite (send_fans_out _ _ _ Hlim).
  rewrite List.filter_app, length_app, fanOut_adapter_count. simpl.
  rewrite Nat.add_0_r. f_equal.
  apply List.filter_ext. intros c. apply channelEnabled_send.
Qed.

(** With the clock at 0 for the first send, the second send of the key,
    one millisecond later, is not suppressed: both alerts are recorded
    and both reach the console adapter. And in production, where the
    console channel is disabled, of two sends of an info alert inside the
    window the first is recorded and the second suppressed, but neither
    reaches an adapter. *)
Lemma same_key_sends_not_exactly_one :
  (let m := AlertManager.new Examples.parseInt Examples.development in
   let first := send m Examples.notice (Examples.calm 0) in
   let second := send (after first) Examples.notice (Examples.calm 1) in
   rateLimiter (after first) !! key Examples.notice = Some 0
   ∧ Date_now (Examples.calm 1) - 0 < rateLimitWindow
   ∧ alertHistory (after second) =
       [Alert.stamp Examples.notice 1; Alert.stamp Examples.notice 0]
   ∧ events first =
       [Adapter CONSOLE (Alert.stamp Examples.notice 0) [];
        Log Info "Alert sent"]
   ∧ events second =
       [Adapter CONSOLE (Alert.stamp Examples.notice 1) [];
        Log Info "Alert sent"])
  ∧ (let m := AlertManager.new Examples.parseInt Examples.production in
     let first := send m Examples.notice (Examples.calm 1000) in
     let second :=
       send (after first) Examples.notice (Examples.calm 2000) in
     alertHistory (after second) = [Alert.stamp Examples.notice 1000]
     ∧ events first =
         [Log Debug "Channel console not enabled, skipping";
          Log Info "Alert sent"]
     ∧ events second = [Log Warn "Alert rate limited"]).
Proof. repeat split; vm_compute; reflexivity. Qed.

(** C1, amended. A first send for a [title:severity] key that has no
    entry in the rate limiter is never suppressed: the stamped alert is
    recorded. And after a successful send of an alert that recorded a
    time other than 0, a second alert of the same title and severity sent
    less than 300000 ms after that time is suppressed, and a third one
    sent once the window has elapsed since that time is let through
    again. Of the first two alerts exactly the first is recorded. The
    first and the third alert have the adapter entered of every resolved
    channel that is configured and enabled, one adapter for each such
    occurrence in the resolved list and no other; the second enters no
    adapter. *)
Theorem send_rate_limit_window :
  (∀ (m : AlertManager.t) (alert : Alert.t) (w : Ambient),
     rateLimiter m !! key alert = None →
     suppressed m alert w = false
     ∧ head (alertHistory (after (send m alert w))) =
         Some (Alert.stamp alert (new_Date w)))
  ∧ (∀ (m : AlertManager.t) (a1 a2 a3 : Alert.t) (w1 w2 w3 : Ambient)
       (last : Z),
       let m1 := after (send m a1 w1) in
       let m2 := after (send m1 a2 w2) in
       let m3 := after (send m2 a3 w3) in
       let s1 := Alert.stamp a1 (new_Date w1) in
       let s3 := Alert.stamp a3 (new_Date w3) in
       Alert.title a2 = Alert.title a1 →
       Alert.severity a2 = Alert.severity a1 →
       Alert.title a3 = Alert.title a1 →
       Alert.severity a3 = Alert.severity a1 →
       suppressed m a1 w1 = false →
       rateLimiter m1 !! key a1 = Some last →
       last ≠ 0 →
       Date_now w2 - last < rateLimitWindow →
       rateLimitWindow ≤ Date_now w3 - last →
       (* the first alert is recorded and reaches the adapters *)
       head (alertHistory m1) = Some s1
       ∧ (∀ (channel : AlertChannel) (cfg : ChannelConfig),
            channel ∈ resolveChannels a1 →
            channels m !! channel = Some cfg →
            enabled cfg = true →
            Adapter channel s1 (adapterConfig channel cfg)
              ∈ events (send m a1 w1))
       ∧ length (List.filter isAdapterCall (events (send m a1 w1))) =
           length (List.filter (channelEnabled m) (resolveChannels a1))
       (* the second is neither recorded nor sent to any adapter *)
       ∧ send m1 a2 w2 =
           {| outcome := Returns; after := m1;
              events := [Log Warn "Alert rate limited"] |}
       ∧ (∀ (c : AlertChannel) (a : Alert.t)
            (k : list (string * JsValue)),
            Adapter c a k ∉ events (send m1 a2 w2))
       ∧ recorded m [(a1, w1); (a2, w2)] = [s1]
       (* the third is recorded and reaches the adapters again *)
       ∧ head (alertHistory m3) = Some s3
       ∧ recorded m [(a1, w1); (a2, w2); (a3, w3)] = [s1; s3]
       ∧ (∀ (channel : AlertChannel) (cfg : ChannelConfig),
            channel ∈ resolveChannels a3 →
            channels m !! channel = Some cfg →
            enabled cfg = true →
            Adapter channel s3 (adapterConfig channel cfg)
              ∈ events (send m2 a3 w3))
       ∧ length (List.filter isAdapterCall (events (send m2 a3 w3))) =
           length (List.filter (channelEnabled m) (resolveChannels a3))).
Proof.
  split.
  - intros m alert w Hnone.
    assert (suppressed m alert w = false) as Hlim.
    { unfold suppressed. by rewrite isRateLimited_first. }
    split; [done|]. by apply send_records.
  - intros m a1 a2 a3 w1 w2 w3 last m1 m2 m3 s1 s3
      Ht2 Hs2 Ht3 Hs3 Hfirst Hlast Hclock Hwithin Helapsed.
    pose proof (key_eq _ _ Ht2 Hs2) as Hk2.
    pose proof (key_eq _ _ Ht3 Hs3) as Hk3.
    assert (suppressed m1 a2 w2 = true) as Hsecond.
    { unfold suppressed.
      rewrite (isRateLimited_within _ _ _ _ last); try done.
      by rewrite key_stamp, Hk2. }
    assert (send m1 a2 w2 =
              {| outcome := Returns; after := m1;
                 events := [Log Warn "Alert rate limited"] |}) as Hsame
      by by apply send_suppressed.
    assert (m2 = m1) as Hm2 by (unfold m2; by rewrite Hsame).
    assert (suppressed m2 a3 w3 = false) as Hthird.
    { unfold suppressed. rewrite Hm2.
      rewrite (isRateLimited_elapsed _ _ _ _ last); try done.
      by rewrite key_stamp, Hk3. }
    assert (channels m2 = channels m) as Hchannels.
    { rewrite Hm2. apply send_channels. }
    assert (∀ c, channelEnabled m2 c = channelEnabled m c) as Henabled.
    { intros c. unfold channelEnabled. by rewrite Hchannels. }
    split; [by apply send_records|].
    split; [intros channel cfg ???; by apply send_enters_adapter|].
    split; [by apply send_adapter_count|].
    split; [done|].
    split.
    { intros c a k. rewrite Hsame; simpl. intros Hin.
      apply list_elem_of_singleton in Hin. discriminate. }
    split.
    { cbn [recorded]. rewrite Hfirst. fold m1. by rewrite Hsecond. }
    split; [by apply send_records|].
    split.
    { cbn [recorded]. rewrite Hfirst. fold m1. rewrite Hsecond.
      fold m2. by rewrite Hthird. }
    split.
    { intros channel cfg Htarget Hcfg Hon.
      apply send_enters_adapter; try done. by rewrite Hchannels. }
    rewrite send_adapter_count by done.
    f_equal. apply List.filter_ext, Henabled.
Qed.

Lemma send_rate_limit_window_witness :
  let m := AlertManager.new Examples.parseInt Examples.development in
  let m1 := after (send m Examples.notice (Examples.calm 1000)) in
  let m2 := after (send m1 Examples.notice (Examples.calm 2000)) in
  rateLimiter m !! key Examples.notice = None
  ∧ suppressed m Examples.notice (Examples.calm 1000) = false
  ∧ Adapter CONSOLE (Alert.stamp Examples.notice 1000) []
      ∈ events (send m Examples.notice (Examples.calm 1000))
  ∧ send m1 Examples.notice (Examples.calm 2000) =
      {| outcome := Returns; after := m1;
         events := [Log Warn "Alert rate limited"] |}
  ∧ recorded m [(Examples.notice, Examples.calm 1000);
                (Examples.notice, Examples.calm 2000);
                (Examples.notice, Examples.calm 301000)] =
      [Alert.stamp Examples.notice 1000;
       Alert.stamp Examples.notice 301000]
  ∧ Adapter CONSOLE (Alert.stamp Examples.notice 301000) []
      ∈ events (send m2 Examples.notice (Examples.calm 301000)).
Proof.
  intros m m1 m2.
  assert (rateLimiter m !! key Examples.notice = None) as Hnone
    by (vm_compute; reflexivity).
  destruct send_rate_limit_window as [Hfirst Hwindow].
  destruct (Hfirst m Examples.notice (Examples.calm 1000) Hnone)
    as [Hsent _].
  destruct (Hwindow m Examples.notice Examples.notice Examples.notice
              (Examples.calm 1000) (Examples.calm 2000)
              (Examples.calm 301000) 1000
              eq_refl eq_refl eq_refl eq_refl Hsent)
    as (_ & Hadapter1 & _ & Hsecond & _ & _ & _ & Hrecorded & Hadapter3
        & _);
    try (vm_compute; reflexivity); try (vm_compute; congruence).
  repeat split; try assumption.
  - apply (Hadapter1 CONSOLE {| enabled := true; config := [] |});
      [apply list_elem_of_here|vm_compute; reflexivity|reflexivity].
  - apply (Hadapter3 CONSOLE {| enabled := true; config := [] |});
      [apply list_elem_of_here|vm_compute; reflexivity|reflexivity].
Defined.

End SendTwice3.

(** ** The Slack message *)

Section SlackMessage.

Import AlertManager.

Variable toUpperCase : string → string.
Variable toISOString : Z → string.
Variable JSON_stringify : JsValue → string.
Variable String_of : JsValue → string.

(** X18. The message for Slack has one attachment. Its fields are the
    severity, the time, and then the first five entries of the alert's
    context in their order, so seven fields at most however large the
    context. Its [ts] is the alert's time stamp in whole seconds, rounded
    down; for an alert without a time stamp, or with the time stamp 0,
    it is the clock's reading in whole seconds. *)
Theorem slack_payload_shape
    (alert : Alert.t) (config : list (string * JsValue)) (now : Z) :
  let payload :=
    slackPayload toUpperCase toISOString JSON_stringify String_of
      alert config now in
  ∃ attachment : Slack.Attachment,
    Slack.attachments payload = [attachment]
    ∧ Slack.title <$> Slack.fields attachment =
        "Severity" :: "Time"
        :: take 5 (fst <$> default [] (Alert.context alert))
    ∧ (length (Slack.fields attachment) ≤ 7)%nat
    ∧ (∀ t : Z,
         Alert.timestamp alert = Some t →
         t ≠ 0 →
         1000 * Slack.ts attachment ≤ t < 1000 * Slack.ts attachment + 1000)
    ∧ (Alert.timestamp alert = None ∨ Alert.timestamp alert = Some 0 →
       1000 * Slack.ts attachment ≤ now
         < 1000 * Slack.ts attachment + 1000).
Proof.
  intros payload. eexists. split; [reflexivity|]. simpl.
  assert (∀ x, 1000 * (x / 1000) ≤ x < 1000 * (x / 1000) + 1000)
    as Hseconds.
  { intros x. pose proof (Z.mul_div_le x 1000).
    pose proof (Z.mul_succ_div_gt x 1000). lia. }
  split; [|split; [|split]].
  - do 2 f_equal. destruct (Alert.context alert) as [context|]; simpl.
    + unfold contextFields. rewrite <- list_fmap_compose, fmap_take.
      done.
    + done.
  - destruct (Alert.context alert) as [context|]; simpl; [|lia].
    unfold contextFields. rewrite length_fmap, length_take. lia.
  - intros t -> Hne. destruct (Z.eqb_spec t 0); [done|]. apply Hseconds.
  - intros [-> | ->]; apply Hseconds.
Qed.

End SlackMessage.

Lemma slack_payload_shape_witness :
  ∃ attachment : Slack.Attachment,
    Slack.attachments
      (AlertManager.slackPayload Examples.lower (λ _, "2023-11-14")
         (λ _, "[]") (λ _, "x") Examples.crowded [] 5) = [attachment]
    ∧ Slack.title <$> Slack.fields attachment =
        ["Severity"; "Time"; "table"; "rows"; "index"; "host"; "tags"]
    ∧ 1000 * Slack.ts attachment ≤ 1700000000123
        < 1000 * Slack.ts attachment + 1000.
Proof.
  destruct (slack_payload_shape Examples.lower (λ _, "2023-11-14")
              (λ _, "[]") (λ _, "x") Examples.crowded [] 5)
    as (attachment & Hone & Htitles & _ & Hts & _).
  exists attachment. split; [exact Hone|]. split; [exact Htitles|].
  apply Hts; [reflexivity|lia].
Defined.

(** * Properties of the logger *)

Section Sanitizing.

Import Logger.

(** Induction on data, through the elements of arrays and the values of
    objects. *)
Lemma JsData_induction (P : JsData → Prop) :
  P DUndefined →
  P DNull →
  (∀ b, P (DBoolean b)) →
  (∀ n, P (DNumber n)) →
  (∀ s, P (DString s)) →
  (∀ items, Forall P items → P (DArray items)) →
  (∀ entries, Forall (λ entry, P entry.2) entries → P (DObject entries)) →
  ∀ data, P data.
Proof.
  intros Hu Hn Hb Hz Hs Ha Ho.
  fix IH 1. intros [ | |b|n|s|items|entries].
  - exact Hu.
  - exact Hn.
  - apply Hb.
  - apply Hz.
  - apply Hs.
  - apply Ha. induction items as [|d items IHitems]; constructor;
      [apply IH|exact IHitems].
  - apply Ho. induction entries as [|[k d] entries IHentries]; constructor;
      [apply IH|exact IHentries].
Qed.

Variable toLowerCase : string → string.

Local Abbreviation sanitize := (Logger.sanitize toLowerCase).
Local Abbreviation sensitive := (Logger.sensitive toLowerCase).

Lemma isObject_sanitize data : isObject (sanitize data) = isObject data.
Proof. by destruct data. Qed.

Lemma sanitize_primitive data : isObject data = false → sanitize data = data.
Proof. by destruct data. Qed.

(** [redacted] on arrays and objects, entry by entry. *)
Lemma redacted_array (s : string → bool) items :
  redacted s (DArray items) ↔ Forall (redacted s) items.
Proof.
  simpl. induction items as [|d items IH]; [done|].
  rewrite Forall_cons, <- IH. done.
Qed.

Lemma redacted_object (s : string → bool) entries :
  redacted s (DObject entries) ↔
  Forall (λ entry : string * JsData,
            if s entry.1 then entry.2 = DString "[REDACTED]"
            else redacted s entry.2) entries.
Proof.
  simpl. induction entries as [|[k d] entries IH]; [done|].
  rewrite Forall_cons, <- IH. done.
Qed.

(** X19. Sanitizing is idempotent, whatever the lower-casing: data that
    went through [sanitize] goes through it again unchanged. *)
Theorem sanitize_idempotent (data : JsData) :
  sanitize (sanitize data) = sanitize data.
Proof.
  induction data as [ | | | | |items IH|entries IH] using JsData_induction;
    try done.
  - simpl. f_equal. rewrite <- list_fmap_compose.
    apply Forall_fmap_ext_1. eapply Forall_impl; [exact IH|].
    intros d Hd. simpl.
    destruct (isObject d) eqn:Hobj.
    + by rewrite isObject_sanitize, Hobj.
    + by rewrite Hobj.
  - simpl. f_equal. rewrite <- list_fmap_compose.
    apply Forall_fmap_ext_1. eapply Forall_impl; [exact IH|].
    intros [k d] Hd. simpl in *.
    destruct (Logger.sensitive toLowerCase k) eqn:Hk; simpl.
    + by rewrite Hk.
    + destruct (isObject d) eqn:Hobj; simpl; rewrite Hk.
      * by rewrite isObject_sanitize, Hobj, Hd.
      * by rewrite Hobj.
Qed.

(** X20. Sanitized data holds no value under a sensitive key: at every
    depth, through objects and arrays, an entry whose lower-cased key is
    in the set holds the mark in place of its value. *)
Theorem sanitize_redacts_every_sensitive_key (data : JsData) :
  redacted sensitive (sanitize data).
Proof.
  induction data as [ | | | | |items IH|entries IH] using JsData_induction;
    try done.
  - change (sanitize (DArray items))
      with (DArray ((λ value, if isObject value then sanitize value
                              else value) <$> items)).
    apply redacted_array, Forall_fmap.
    eapply Forall_impl; [exact IH|].
    intros d Hd. simpl. destruct (isObject d) eqn:Hobj; [done|].
    by destruct d.
  - change (sanitize (DObject entries))
      with (DObject
              ((λ entry : string * JsData,
                  let '(key, value) := entry in
                  if Logger.sensitive toLowerCase key
                  then (key, DString "[REDACTED]")
                  else if isObject value then (key, sanitize value)
                  else (key, value)) <$> entries)).
    apply redacted_object, Forall_fmap.
    eapply Forall_impl; [exact IH|].
    intros [k d] Hd. simpl in *.
    destruct (Logger.sensitive toLowerCase k) eqn:Hk; simpl.
    + by rewrite Hk.
    + destruct (isObject d) eqn:Hobj; simpl; rewrite Hk; [done|].
      by destruct d.
Qed.

(** X21. Sanitizing keeps the shape of the data: an object keeps its
    keys, in their order, an array keeps its length, and a value that is
    not an object is returned as it is. *)
Theorem sanitize_keeps_the_shape :
  (∀ entries : list (string * JsData),
     fst <$> spread (sanitize (DObject entries)) = fst <$> entries)
  ∧ (∀ items : list JsData,
       ∃ items' : list JsData,
         sanitize (DArray items) = DArray items'
         ∧ length items' = length items)
  ∧ (∀ data : JsData, isObject data = false → sanitize data = data).
Proof.
  split; [|split].
  - intros entries. simpl. rewrite <- list_fmap_compose.
    apply list_fmap_ext. intros i [k d] _. simpl.
    destruct (Logger.sensitive toLowerCase k); [done|].
    by destruct (isObject d).
  - intros items. eexists. split; [reflexivity|]. apply length_fmap.
  - apply sanitize_primitive.
Qed.

(** X22. Data that has no sensitive key at any depth is returned by
    [sanitize] as it is. *)
Theorem sanitize_without_sensitive_keys (data : JsData) :
  (∀ key : string, key ∈ keys data → sensitive key = false) →
  sanitize data = data.
Proof.
  induction data as [ | | | | |items IH|entries IH] using JsData_induction;
    try done.
  - intros Hkeys. simpl. f_equal.
    rewrite <- (list_fmap_id items) at 2.
    apply Forall_fmap_ext_1, Forall_forall. intros d Hd.
    destruct (isObject d); [|done].
    rewrite Forall_forall in IH. apply IH; [done|].
    intros key Hkey. apply Hkeys. simpl.
    eapply elem_of_concat; [exact Hkey|]. by apply list_elem_of_fmap_2.
  - intros Hkeys. simpl. f_equal.
    rewrite <- (list_fmap_id entries) at 2.
    apply Forall_fmap_ext_1, Forall_forall. intros [k d] Hd.
    assert (k :: keys d ∈
              (λ entry : string * JsData,
                 let '(key, d) := entry in key :: keys d) <$> entries)
      as Hentry
      by exact (list_elem_of_fmap_2
                  (λ entry : string * JsData,
                     let '(key, d) := entry in key :: keys d)
                  entries (k, d) Hd).
    rewrite (Hkeys k).
    + destruct (isObject d); [|done]. simpl. f_equal.
      rewrite Forall_forall in IH. apply (IH (k, d)); [done|].
      intros key Hkey. apply Hkeys. simpl.
      eapply elem_of_concat; [|exact Hentry]. by apply list_elem_of_further.
    + simpl. eapply elem_of_concat; [|exact Hentry].
      apply list_elem_of_here.
Qed.

(** X23. The set of sensitive names spells two of its members with a
    capital, apiKey and creditCard, and the key is lower-cased before it
    is looked up. So, for a lower-casing that is idempotent and turns
    these two names into apikey and creditcard, a key is redacted exactly
    when its lower-cased form is one of password, token, secret, ssn and
    authorization, and an apiKey or a creditCard is logged as it is. *)
Theorem capitalised_names_are_never_redacted :
  (∀ key : string, toLowerCase (toLowerCase key) = toLowerCase key) →
  toLowerCase "apiKey" = "apikey" →
  toLowerCase "creditCard" = "creditcard" →
  (∀ key : string,
     sensitive key = true ↔
     toLowerCase key ∈
       ["password"; "token"; "secret"; "ssn"; "authorization"])
  ∧ (∀ value : JsData,
       isObject value = false →
       sanitize (DObject [("apiKey", value); ("creditCard", value)]) =
         DObject [("apiKey", value); ("creditCard", value)]).
Proof.
  intros Hidem Hapi Hcard. split.
  - intros key. unfold Logger.sensitive, sensitiveFields.
    rewrite bool_decide_eq_true. split.
    + intros Hin.
      repeat (apply elem_of_cons in Hin as [Hin|Hin]);
        try (by apply elem_of_nil in Hin);
        try (rewrite Hin;
             by repeat first [apply list_elem_of_here
                             |apply list_elem_of_further]).
      * pose proof (Hidem key) as Hkey. rewrite Hin, Hapi in Hkey.
        discriminate.
      * pose proof (Hidem key) as Hkey. rewrite Hin, Hcard in Hkey.
        discriminate.
    + intros Hin.
      repeat (apply elem_of_cons in Hin as [Hin|Hin]);
        try (by apply elem_of_nil in Hin);
        rewrite Hin;
        by repeat first [apply list_elem_of_here
                        |apply list_elem_of_further].
  - intros value Hobj. simpl. unfold Logger.sensitive.
    rewrite Hapi, Hcard, Hobj. done.
Qed.

(** The sanitized meta, entry by entry. *)
Lemma sanitize_entries (entries : list (string * JsData)) :
  spread (sanitize (DObject entries)) =
    (λ entry : string * JsData,
       (entry.1,
        if sensitive entry.1 then DString "[REDACTED]"
        else sanitize entry.2))
    <$> entries.
Proof.
  simpl. apply list_fmap_ext. intros i [k d] _. simpl.
  destruct (Logger.sensitive toLowerCase k); [done|].
  destruct (isObject d) eqn:Hobj; [done|].
  by rewrite sanitize_primitive.
Qed.

Lemma list_to_map_values (g : string → JsData → JsData)
    (entries : list (string * JsData)) (key : string) :
  (list_to_map ((λ entry : string * JsData, (entry.1, g entry.1 entry.2))
                <$> entries) : gmap string JsData) !! key =
    g key <$> (list_to_map entries : gmap string JsData) !! key.
Proof.
  induction entries as [|[k d] entries IH]; [done|].
  simpl. destruct (decide (k = key)) as [->|Hne].
  - by rewrite !lookup_insert_eq.
  - by rewrite !lookup_insert_ne.
Qed.

(** X24. What [log] hands to winston for a key. The processing time is
    always the measured one. Any other key of the meta holds the meta's
    value, sanitized, or the mark if the key is sensitive: the meta
    replaces what the ambient context holds for the key, and a meta key
    named level or message replaces the level or the message of the call.
    A key the meta does not have holds what the ambient context holds for
    it, as it is: the context is not sanitized. *)
Theorem log_entry_precedence
    (level message : string) (meta store : option (list (string * JsData)))
    (start finish : Z) :
  let entry := logEntry toLowerCase level message meta store start finish in
  let given (fields : option (list (string * JsData))) (key : string) :=
    (list_to_map (default [] fields) : gmap string JsData) !! key in
  entry !! "processingTime" = Some (DNumber (finish - start))
  ∧ (∀ (key : string) (value : JsData),
       key ≠ "processingTime" →
       given meta key = Some value →
       entry !! key =
         Some (if sensitive key then DString "[REDACTED]"
               else sanitize value))
  ∧ (∀ (key : string) (value : JsData),
       key ≠ "processingTime" →
       given meta key = None →
       given store key = Some value →
       entry !! key = Some value)
  ∧ (∀ key : string,
       key ≠ "processingTime" →
       given meta key = None →
       given store key = None →
       entry !! key =
         ({[ "level" := DString level; "message" := DString message ]}
            : gmap string JsData) !! key).
Proof.
  intros entry given.
  assert (∀ key,
            (list_to_map
               match meta with
               | Some entries => spread (sanitize (DObject entries))
               | None => []
               end : gmap string JsData) !! key =
              (λ value, if sensitive key then DString "[REDACTED]"
                        else sanitize value) <$> given meta key) as Hmeta.
  { intros key. unfold given. destruct meta as [entries|]; [|done].
    rewrite sanitize_entries. simpl.
    apply (list_to_map_values
             (λ k d, if sensitive k then DString "[REDACTED]"
                     else sanitize d)). }
  unfold entry, logEntry. split; [apply lookup_insert_eq|].
  split; [|split].
  - intros key value Hne Hgiven.
    rewrite lookup_insert_ne by done.
    apply lookup_union_Some_l. by rewrite Hmeta, Hgiven.
  - intros key value Hne Hnone Hgiven.
    rewrite lookup_insert_ne by done.
    rewrite lookup_union_r by by rewrite Hmeta, Hnone.
    by apply lookup_union_Some_l.
  - intros key Hne Hnone Hnone'.
    rewrite lookup_insert_ne by done.
    rewrite lookup_union_r by by rewrite Hmeta, Hnone.
    by rewrite lookup_union_r.
Qed.

End Sanitizing.

Lemma sanitize_keeps_the_shape_witness :
  fst <$> Logger.spread
            (Logger.sanitize Examples.lower (DObject Examples.login)) =
    ["user"; "Password"; "apiKey"; "device"]
  ∧ Logger.sanitize Examples.lower (DString "token") = DString "token".
Proof.
  destruct (sanitize_keeps_the_shape Examples.lower)
    as (Hkeys & _ & Hprimitive).
  split; [exact (Hkeys Examples.login)|].
  by apply Hprimitive.
Defined.

Lemma sanitize_without_sensitive_keys_witness :
  let data :=
    DObject [("user", DString "ada");
             ("device", DArray [DObject [("os", DString "linux")]])] in
  Logger.sanitize Examples.lower data = data.
Proof.
  intros data.
  apply (sanitize_without_sensitive_keys Examples.lower data).
  intros key Hin. vm_compute in Hin.
  repeat (apply elem_of_cons in Hin as [->|Hin]; [reflexivity|]).
  by apply elem_of_nil in Hin.
Defined.

Lemma lowerAscii_idempotent (c : ascii) :
  Examples.lowerAscii (Examples.lowerAscii c) = Examples.lowerAscii c.
Proof. by destruct c as [[] [] [] [] [] [] [] []]. Qed.

Lemma lower_idempotent (s : string) :
  Examples.lower (Examples.lower s) = Examples.lower s.
Proof.
  induction s as [|c s IH]; [done|].
  simpl. by rewrite lowerAscii_idempotent, IH.
Qed.

Lemma capitalised_names_are_never_redacted_witness :
  Logger.sensitive Examples.lower "apiKey" = false
  ∧ Logger.sensitive Examples.lower "PASSWORD" = true
  ∧ Logger.sanitize Examples.lower
      (DObject [("apiKey", DString "k-123");
                ("creditCard", DString "k-123")]) =
      DObject [("apiKey", DString "k-123");
               ("creditCard", DString "k-123")].
Proof.
  destruct (capitalised_names_are_never_redacted Examples.lower
              lower_idempotent eq_refl eq_refl) as [Hexactly Hkept].
  split; [|split].
  - destruct (Logger.sensitive Examples.lower "apiKey") eqn:Hapi; [|done].
    apply Hexactly in Hapi. vm_compute in Hapi.
    repeat (apply elem_of_cons in Hapi as [Hapi|Hapi];
            [discriminate|]).
    by apply elem_of_nil in Hapi.
  - apply Hexactly. vm_compute.
    apply list_elem_of_here.
  - by apply Hkept.
Defined.

Lemma log_entry_precedence_witness :
  let entry :=
    Logger.logEntry Examples.lower "info" "Login"
      (Some [("message", DString "replaced");
             ("Password", DString "hunter2")])
      (Some [("password", DString "from-context");
             ("message", DString "context")])
      10 12 in
  entry !! "message" = Some (DString "replaced")
  ∧ entry !! "Password" = Some (DString "[REDACTED]")
  ∧ entry !! "password" = Some (DString "from-context")
  ∧ entry !! "level" = Some (DString "info").
Proof.
  intros entry.
  destruct (log_entry_precedence Examples.lower "info" "Login"
              (Some [("message", DString "replaced");
                     ("Password", DString "hunter2")])
              (Some [("password", DString "from-context");
                     ("message", DString "context")])
              10 12) as (_ & Hmeta & Hstore & Hcall).
  split; [|split; [|split]].
  - by apply (Hmeta "message" (DString "replaced")).
  - by apply (Hmeta "Password" (DString "hunter2")).
  - by apply (Hstore "password" (DString "from-context")).
  - etrans; [apply (Hcall "level"); by vm_compute|].
    vm_compute. reflexivity.
Defined.
